(** * Session and authentication management of the to-do application

    A shallow embedding of
      - [src/Service/authService.ts]   (login, logout, token decoding,
                                        the localStorage accessors),
      - [src/features/auth/authSlice.ts] (the Redux slice: initial state,
                                        reducers, the [loginAsync] thunk),
      - [src/Components/Login.tsx]     ([loginHandler] and the effect that
                                        clears the error)
    together with the browser primitives these functions call
    ([String.prototype.split], [String.prototype.trim], [atob],
    [JSON.parse], [JSON.stringify], [localStorage]).

    JavaScript strings are sequences of UTF-16 code units and are modelled as
    [list N]; [lit] turns a Rocq string literal into one. *)

From Stdlib Require Import NArith ZArith List Ascii String Lia Bool.
From stdpp Require Import gmap strings pretty.
Import ListNotations.

Open Scope N_scope.
Set Warnings "-register-all".

(** ** JavaScript strings *)

Abbreviation jstring := (list N).

Definition lit (s : string) : jstring :=
  map N_of_ascii (list_ascii_of_string s).

Fixpoint jstring_eqb (a b : jstring) : bool :=
  match a, b with
  | [], [] => true
  | x :: a', y :: b' => (x =? y) && jstring_eqb a' b'
  | _, _ => false
  end.

(** ** JavaScript values

    [VUndef] is [undefined]; the other constructors are the JSON values.  A
    number carries the literal it was read from and stands for the double
    nearest to it: the modelled code never computes with numbers, it tests
    them for zero and writes them back.  An object is the list of its own
    properties in enumeration order. *)

Inductive value : Type :=
| VUndef
| VNull
| VBool (b : bool)
| VNum (literal : jstring)
| VStr (s : jstring)
| VArr (elements : list value)
| VObj (properties : list (jstring * value)).

(** [o.k] for a property name [k] that no prototype defines: the own
    property when [o] is an object that has it, [undefined] otherwise
    (also on arrays, strings, numbers and booleans). *)
Fixpoint lookup_property (k : jstring) (ps : list (jstring * value)) : value :=
  match ps with
  | [] => VUndef
  | (k', v) :: ps' => if jstring_eqb k k' then v else lookup_property k ps'
  end.

Definition get (o : value) (k : string) : value :=
  match o with
  | VObj ps => lookup_property (lit k) ps
  | _ => VUndef
  end.

(** The digits at the head of [s], read in base ten after the digits
    already read into [m]; their number is added to [n]. *)
Fixpoint scan_digits (s : jstring) (m : N) (n : nat) : N * nat * jstring :=
  match s with
  | c :: s' =>
      if (48 <=? c) && (c <=? 57)
      then scan_digits s' (10 * m + (c - 48)) (S n)
      else (m, n, s)
  | [] => (m, n, s)
  end.

(** A number literal without its sign denotes [m * 10 ^ d]. *)
Definition literal_decimal (l : jstring) : N * Z :=
  let s := match l with
           | c :: r => if c =? 45 then r else l
           | [] => l
           end in
  let '(m1, _, r1) := scan_digits s 0 0 in
  let '(m2, k, r2) :=
    match r1 with
    | c :: r => if c =? 46 then scan_digits r m1 0 else (m1, 0%nat, r1)
    | [] => (m1, 0%nat, r1)
    end in
  let exponent (r : jstring) : Z := Z.of_N (fst (fst (scan_digits r 0 0))) in
  let x :=
    match r2 with
    | c :: r =>
        if (c =? 101) || (c =? 69) then
          match r with
          | g :: r' =>
              if g =? 45 then (- exponent r')%Z
              else if g =? 43 then exponent r'
              else exponent r
          | [] => 0%Z
          end
        else 0%Z
    | [] => 0%Z
    end in
  (m2, (x - Z.of_nat k)%Z).

(** The double nearest to the literal is zero: the literal denotes at most
    [2 ^ -1075], half of the least positive double (a tie goes to the even
    neighbour, which is zero). *)
Definition number_is_zero (l : jstring) : bool :=
  let (m, d) := literal_decimal l in
  if m =? 0 then true
  else if (0 <=? d)%Z then false
  else m * 2 ^ 1075 <=? 10 ^ Z.to_N (- d).

(** ToBoolean. *)
Definition truthy (v : value) : bool :=
  match v with
  | VUndef | VNull => false
  | VBool b => b
  | VNum l => negb (number_is_zero l)
  | VStr s => match s with [] => false | _ => true end
  | VArr _ | VObj _ => true
  end.

Definition truthy_string (s : jstring) : bool :=
  match s with [] => false | _ => true end.

(** [a || b] on values. *)
Definition or_else (a b : value) : value := if truthy a then a else b.

(** [s || null] for a string [s]. *)
Definition string_or_null (s : jstring) : option jstring :=
  if truthy_string s then Some s else None.

(** ** Exceptions *)

(** What [throw] carries: an [AuthError] of authService.ts, or one of the
    built-in errors, named by its class. *)
Record AuthError : Type := mkAuthError {
  message : jstring;
  status : Z;
  errors : option (list (jstring * list jstring));
}.

Inductive exn : Type :=
| AuthErrorE (e : AuthError)
| JsError (name : string).

Inductive result (A : Type) : Type :=
| Ok (a : A)
| Throw (e : exn).
Arguments Ok {A} a.
Arguments Throw {A} e.

(** ** String.prototype.split with a one-character separator *)

Fixpoint split (sep : N) (s : jstring) : list jstring :=
  match s with
  | [] => [[]]
  | c :: s' =>
      if c =? sep then [] :: split sep s'
      else match split sep s' with
           | h :: t => (c :: h) :: t
           | [] => [[c]]
           end
  end.

(** ** String.prototype.trim *)

(** WhiteSpace and LineTerminator code units of ECMAScript. *)
Definition is_js_whitespace (c : N) : bool :=
  ((9 <=? c) && (c <=? 13)) || (c =? 32) || (c =? 160) || (c =? 5760)
  || ((8192 <=? c) && (c <=? 8202)) || (c =? 8232) || (c =? 8233)
  || (c =? 8239) || (c =? 8287) || (c =? 12288) || (c =? 65279).

Fixpoint trim_start (s : jstring) : jstring :=
  match s with
  | c :: s' => if is_js_whitespace c then trim_start s' else s
  | [] => []
  end.

Definition trim (s : jstring) : jstring :=
  rev (trim_start (rev (trim_start s))).

(** ** atob: the forgiving-base64 decode of the HTML standard *)

Definition is_ascii_whitespace (c : N) : bool :=
  (c =? 9) || (c =? 10) || (c =? 12) || (c =? 13) || (c =? 32).

Definition base64_index (c : N) : option N :=
  if (65 <=? c) && (c <=? 90) then Some (c - 65)
  else if (97 <=? c) && (c <=? 122) then Some (c - 71)
  else if (48 <=? c) && (c <=? 57) then Some (c + 4)
  else if c =? 43 then Some 62
  else if c =? 47 then Some 63
  else None.

Fixpoint base64_indices (s : jstring) : option (list N) :=
  match s with
  | [] => Some []
  | c :: s' =>
      match base64_index c, base64_indices s' with
      | Some i, Some l => Some (i :: l)
      | _, _ => None
      end
  end.

(** Remove one or two trailing [=] (code unit 61). *)
Definition strip_padding (s : jstring) : jstring :=
  match rev s with
  | 61 :: 61 :: r => rev r
  | 61 :: r => rev r
  | _ => s
  end.

(** Every four sextets give three bytes; two left over give one byte (the
    last four bits dropped), three left over give two bytes (the last two
    bits dropped). *)
Fixpoint sextets_to_bytes (l : list N) : jstring :=
  match l with
  | a :: b :: c :: d :: rest =>
      let n := N.lor (N.shiftl a 18)
                 (N.lor (N.shiftl b 12) (N.lor (N.shiftl c 6) d)) in
      N.shiftr n 16 :: N.land (N.shiftr n 8) 255 :: N.land n 255
        :: sextets_to_bytes rest
  | [a; b; c] =>
      let n := N.shiftr (N.lor (N.shiftl a 12) (N.lor (N.shiftl b 6) c)) 2 in
      [N.shiftr n 8; N.land n 255]
  | [a; b] =>
      [N.shiftr (N.lor (N.shiftl a 6) b) 4]
  | _ => []
  end.

Definition atob (data : jstring) : result jstring :=
  let data := filter (fun c => negb (is_ascii_whitespace c)) data in
  let data :=
    if N.of_nat (length data) mod 4 =? 0 then strip_padding data else data in
  if N.of_nat (length data) mod 4 =? 1
  then Throw (JsError "InvalidCharacterError")
  else match base64_indices data with
       | Some l => Ok (sextets_to_bytes l)
       | None => Throw (JsError "InvalidCharacterError")
       end.

(** ToString of the argument of [atob]: [token.split('.')[1]] is
    [undefined] when the token has no dot. *)
Definition to_string_arg (payload : option jstring) : jstring :=
  match payload with
  | Some p => p
  | None => lit "undefined"
  end.

(** ** JSON.parse *)

Inductive presult (A : Type) : Type :=
| POk (a : A) (rest : jstring)
| PErr
| PFuel.
Arguments POk {A} a rest.
Arguments PErr {A}.
Arguments PFuel {A}.

Fixpoint skip_ws (s : jstring) : jstring :=
  match s with
  | c :: s' =>
      if (c =? 9) || (c =? 10) || (c =? 13) || (c =? 32)
      then skip_ws s' else s
  | [] => []
  end.

Definition is_digit (c : N) : bool := (48 <=? c) && (c <=? 57).

Definition hex_value (c : N) : option N :=
  if (48 <=? c) && (c <=? 57) then Some (c - 48)
  else if (97 <=? c) && (c <=? 102) then Some (c - 87)
  else if (65 <=? c) && (c <=? 70) then Some (c - 55)
  else None.

Definition hex4_value (a b c d : N) : option N :=
  match hex_value a, hex_value b, hex_value c, hex_value d with
  | Some x, Some y, Some z, Some w => Some (4096 * x + 256 * y + 16 * z + w)
  | _, _, _, _ => None
  end.

(** The character a one-letter escape stands for. *)
Definition unescape (e : N) : option N :=
  if e =? 34 then Some 34          (* quotation mark *)
  else if e =? 92 then Some 92     (* reverse solidus *)
  else if e =? 47 then Some 47     (* solidus *)
  else if e =? 98 then Some 8      (* b: backspace *)
  else if e =? 102 then Some 12    (* f: form feed *)
  else if e =? 110 then Some 10    (* n: line feed *)
  else if e =? 114 then Some 13    (* r: carriage return *)
  else if e =? 116 then Some 9     (* t: tab *)
  else None.

Definition cons_char (c : N) (r : option (jstring * jstring))
  : option (jstring * jstring) :=
  match r with
  | Some (str, rest) => Some (c :: str, rest)
  | None => None
  end.

(** The characters of a string literal after its opening quote, up to and
    including the closing quote. *)
Fixpoint parse_chars (s : jstring) : option (jstring * jstring) :=
  match s with
  | [] => None
  | c :: s' =>
      if c =? 34 then Some ([], s')
      else if c =? 92 then
        match s' with
        | e :: s'' =>
            if e =? 117 then
              match s'' with
              | h1 :: h2 :: h3 :: h4 :: r =>
                  match hex4_value h1 h2 h3 h4 with
                  | Some u => cons_char u (parse_chars r)
                  | None => None
                  end
              | _ => None
              end
            else
              match unescape e with
              | Some u => cons_char u (parse_chars s'')
              | None => None
              end
        | [] => None
        end
      else if c <? 32 then None
      else cons_char c (parse_chars s')
  end.

Fixpoint take_digits (s : jstring) : jstring * jstring :=
  match s with
  | c :: s' =>
      if is_digit c
      then let (ds, r) := take_digits s' in (c :: ds, r)
      else ([], s)
  | [] => ([], [])
  end.

(** A number: an optional minus sign; then a single 0, or a digit from 1 to
    9 followed by any digits; then optionally a dot and one or more digits;
    then optionally e or E, an optional sign and one or more digits.
    Returns the literal and what follows it. *)
Definition parse_int (s : jstring) : option (jstring * jstring) :=
  match s with
  | c :: r =>
      if c =? 48 then Some ([48], r)
      else if is_digit c
      then let (ds, r') := take_digits r in Some (c :: ds, r')
      else None
  | [] => None
  end.

Definition parse_frac (s : jstring) : option (jstring * jstring) :=
  match s with
  | c :: r =>
      if c =? 46 then
        match take_digits r with
        | ([], _) => None
        | (ds, r') => Some (c :: ds, r')
        end
      else Some ([], s)
  | [] => Some ([], s)
  end.

Definition parse_exp (s : jstring) : option (jstring * jstring) :=
  match s with
  | c :: r =>
      if (c =? 101) || (c =? 69) then
        let (sign, r1) :=
          match r with
          | g :: r0 => if (g =? 43) || (g =? 45) then ([g], r0) else ([], r)
          | [] => ([], r)
          end in
        match take_digits r1 with
        | ([], _) => None
        | (ds, r') => Some (c :: sign ++ ds, r')
        end
      else Some ([], s)
  | [] => Some ([], s)
  end.

Definition parse_number (s : jstring) : option (jstring * jstring) :=
  let (sign, s1) :=
    match s with
    | c :: r => if c =? 45 then ([c], r) else ([], s)
    | [] => ([], s)
    end in
  match parse_int s1 with
  | Some (i, s2) =>
      match parse_frac s2 with
      | Some (f, s3) =>
          match parse_exp s3 with
          | Some (e, s4) => Some (sign ++ i ++ f ++ e, s4)
          | None => None
          end
      | None => None
      end
  | None => None
  end.

(** [s] without its prefix [p], when it starts with [p]. *)
Fixpoint strip_prefix (p s : jstring) : option jstring :=
  match p, s with
  | [], _ => Some s
  | x :: p', y :: s' => if x =? y then strip_prefix p' s' else None
  | _ :: _, [] => None
  end.

(** Property keys that are array indices (canonical decimal numerals up to
    2^32 - 2) are enumerated first, in ascending order; the other keys follow
    in the order of their creation. *)
Definition digits_value (ds : jstring) : N :=
  fold_left (fun n c => 10 * n + (c - 48)) ds 0.

Definition array_index (k : jstring) : option N :=
  match k with
  | [] => None
  | c :: r =>
      if forallb is_digit k && (negb (c =? 48) || (length r =? 0)%nat)
           && (length k <=? 10)%nat && (digits_value k <=? 4294967294)
      then Some (digits_value k)
      else None
  end.

Fixpoint has_property (k : jstring) (ps : list (jstring * value)) : bool :=
  match ps with
  | [] => false
  | (k', _) :: ps' => jstring_eqb k k' || has_property k ps'
  end.

Fixpoint replace_property (k : jstring) (v : value)
  (ps : list (jstring * value)) : list (jstring * value) :=
  match ps with
  | [] => []
  | (k', v') :: ps' =>
      if jstring_eqb k k' then (k', v) :: ps'
      else (k', v') :: replace_property k v ps'
  end.

Fixpoint insert_index (i : N) (k : jstring) (v : value)
  (ps : list (jstring * value)) : list (jstring * value) :=
  match ps with
  | [] => [(k, v)]
  | (k', v') :: ps' =>
      match array_index k' with
      | Some j =>
          if j <? i then (k', v') :: insert_index i k v ps'
          else (k, v) :: ps
      | None => (k, v) :: ps
      end
  end.

(** CreateDataProperty on an ordinary object. *)
Definition define_property (k : jstring) (v : value)
  (ps : list (jstring * value)) : list (jstring * value) :=
  if has_property k ps then replace_property k v ps
  else match array_index k with
       | Some i => insert_index i k v ps
       | None => ps ++ [(k, v)]
       end.

Fixpoint parse_value (fuel : nat) (s : jstring) {struct fuel}
  : presult value :=
  match fuel with
  | O => PFuel
  | S f =>
      match skip_ws s with
      | [] => PErr
      | c :: r =>
          if c =? 34 then
            match parse_chars r with
            | Some (str, r') => POk (VStr str) r'
            | None => PErr
            end
          else if c =? 91 then
            match skip_ws r with
            | c' :: r' =>
                if c' =? 93 then POk (VArr []) r' else parse_elements f r []
            | [] => PErr
            end
          else if c =? 123 then
            match skip_ws r with
            | c' :: r' =>
                if c' =? 125 then POk (VObj []) r' else parse_members f r []
            | [] => PErr
            end
          else if (c =? 45) || is_digit c then
            match parse_number (c :: r) with
            | Some (l, r') => POk (VNum l) r'
            | None => PErr
            end
          else
            match strip_prefix (lit "null") (c :: r) with
            | Some r' => POk VNull r'
            | None =>
                match strip_prefix (lit "true") (c :: r) with
                | Some r' => POk (VBool true) r'
                | None =>
                    match strip_prefix (lit "false") (c :: r) with
                    | Some r' => POk (VBool false) r'
                    | None => PErr
                    end
                end
            end
      end
  end
with parse_elements (fuel : nat) (s : jstring) (acc : list value)
  {struct fuel} : presult value :=
  match fuel with
  | O => PFuel
  | S f =>
      match parse_value f s with
      | POk v r =>
          match skip_ws r with
          | c :: r' =>
              if c =? 44 then parse_elements f r' (v :: acc)
              else if c =? 93 then POk (VArr (rev (v :: acc))) r'
              else PErr
          | [] => PErr
          end
      | PErr => PErr
      | PFuel => PFuel
      end
  end
with parse_members (fuel : nat) (s : jstring) (acc : list (jstring * value))
  {struct fuel} : presult value :=
  match fuel with
  | O => PFuel
  | S f =>
      match skip_ws s with
      | c :: r =>
          if c =? 34 then
            match parse_chars r with
            | Some (k, r1) =>
                match skip_ws r1 with
                | c1 :: r2 =>
                    if c1 =? 58 then
                      match parse_value f r2 with
                      | POk v r3 =>
                          match skip_ws r3 with
                          | c3 :: r4 =>
                              if c3 =? 44
                              then parse_members f r4 (define_property k v acc)
                              else if c3 =? 125
                              then POk (VObj (define_property k v acc)) r4
                              else PErr
                          | [] => PErr
                          end
                      | PErr => PErr
                      | PFuel => PFuel
                      end
                    else PErr
                | [] => PErr
                end
            | None => PErr
            end
          else PErr
      | [] => PErr
      end
  end.

(** Two units of fuel for each character are enough ([parse_fuel_enough]
    below), so [PFuel] does not occur here. *)
Definition parse_fuel (text : jstring) : nat := (2 * length text + 2)%nat.

Definition JSON_parse (text : jstring) : result value :=
  match parse_value (parse_fuel text) text with
  | POk v r =>
      match skip_ws r with
      | [] => Ok v
      | _ => Throw (JsError "SyntaxError")
      end
  | _ => Throw (JsError "SyntaxError")
  end.

(** ** JSON.stringify *)

(** *** Number::toString, for the numbers that JSON.stringify writes *)

(** [10 ^ n] and [2 ^ n] for [n >= 0], and [1] for a negative [n]. *)
Definition pow10 (n : Z) : N := 10 ^ Z.to_N n.
Definition pow2 (n : Z) : N := 2 ^ Z.to_N n.

(** [m * 10 ^ d / 2 ^ e] as a fraction of two naturals. *)
Definition scaled (m : N) (d e : Z) : N * N :=
  (m * pow10 d * pow2 (- e), pow10 (- d) * pow2 e).

(** The nearest natural, a tie going to the even one. *)
Definition round_half_even (num den : N) : N :=
  let q := num / den in
  let r := num mod den in
  if (den <? 2 * r) || ((2 * r =? den) && N.odd q) then q + 1 else q.

(** A double without its sign: zero, infinity, or [M * 2 ^ E] with
    [M < 2 ^ 53] and [-1074 <= E <= 971]. *)
Inductive double : Type :=
| DZero
| DInfinity
| DFinite (M : N) (E : Z).

(** The double nearest to [m * 10 ^ d] (round to nearest, ties to even). *)
Definition nearest_double (m : N) (d : Z) : double :=
  if m =? 0 then DZero
  else
    let (n0, d0) := scaled m d 0 in
    let e1 := (Z.of_N (N.log2 n0) - Z.of_N (N.log2 d0) - 52)%Z in
    let (n1, d1) := scaled m d e1 in
    let e2 := if n1 / d1 <? 2 ^ 52 then (e1 - 1)%Z else e1 in
    let e := Z.max e2 (-1074) in
    let (n, dn) := scaled m d e in
    let q := round_half_even n dn in
    if q =? 0 then DZero
    else
      let (M, E) := if q =? 2 ^ 53 then (2 ^ 52, (e + 1)%Z) else (q, e) in
      if (971 <? E)%Z then DInfinity else DFinite M E.

Definition double_eqb (x y : double) : bool :=
  match x, y with
  | DZero, DZero | DInfinity, DInfinity => true
  | DFinite M E, DFinite M' E' => (M =? M') && (E =? E')%Z
  | _, _ => false
  end.

(** [M * 2 ^ E < 10 ^ n] *)
Definition below_pow10 (M : N) (E n : Z) : bool :=
  M * pow2 E * pow10 (- n) <? pow10 n * pow2 (- E).

Fixpoint raise_exponent (fuel : nat) (M : N) (E n : Z) : Z :=
  match fuel with
  | O => n
  | S f => if below_pow10 M E n then n else raise_exponent f M E (n + 1)%Z
  end.

Fixpoint lower_exponent (fuel : nat) (M : N) (E n : Z) : Z :=
  match fuel with
  | O => n
  | S f =>
      if below_pow10 M E (n - 1)%Z then lower_exponent f M E (n - 1)%Z else n
  end.

(** The [n] with [10 ^ (n - 1) <= M * 2 ^ E < 10 ^ n], from an estimate that
    is off by two at most. *)
Definition decimal_exponent (M : N) (E : Z) : Z :=
  let bits := (Z.of_N (N.log2 M) + E)%Z in
  let estimate := (bits * 1233 / 4096)%Z in
  lower_exponent 4 M E (raise_exponent 4 M E estimate).

(** The shortest decimal [s * 10 ^ (n - k)], with [k] digits in [s], whose
    nearest double is [M * 2 ^ E]; of two candidates with [k] digits, the
    one nearer to the double. *)
Fixpoint shortest (fuel : nat) (M : N) (E n k : Z) : N * Z :=
  match fuel with
  | O => (M, 0%Z)
  | S f =>
      let p := (n - k)%Z in
      let num := M * pow2 E * pow10 (- p) in
      let den := pow2 (- E) * pow10 p in
      let s1 := num / den in
      let s2 := s1 + 1 in
      let ok1 := double_eqb (nearest_double s1 p) (DFinite M E) in
      let ok2 := double_eqb (nearest_double s2 p) (DFinite M E) in
      let first_nearer :=
        (2 * num <? (2 * s1 + 1) * den)
        || ((2 * num =? (2 * s1 + 1) * den) && N.even s1) in
      if ok1 && (negb ok2 || first_nearer) then (s1, p)
      else if ok2 then (s2, p)
      else shortest f M E n (k + 1)%Z
  end.

Fixpoint decimal_digits_aux (fuel : nat) (n : N) (acc : jstring) : jstring :=
  match fuel with
  | O => acc
  | S f =>
      if n <? 10 then (48 + n) :: acc
      else decimal_digits_aux f (n / 10) ((48 + n mod 10) :: acc)
  end.

Definition decimal_digits (n : N) : jstring :=
  decimal_digits_aux (S (N.to_nat (N.log2 n))) n [].

Fixpoint strip_zeros (rev_digits : jstring) (p : Z) : jstring * Z :=
  match rev_digits with
  | c :: r => if c =? 48 then strip_zeros r (p + 1)%Z else (rev_digits, p)
  | [] => ([48], 0%Z)
  end.

(** Number::toString of [s * 10 ^ p], [s > 0]. *)
Definition format_decimal (s : N) (p : Z) : jstring :=
  let (rd, p') := strip_zeros (rev (decimal_digits s)) p in
  let digits := rev rd in
  let k := Z.of_nat (length digits) in
  let n := (k + p')%Z in
  if (k <=? n)%Z && (n <=? 21)%Z then
    digits ++ repeat 48 (Z.to_nat (n - k))
  else if (0 <? n)%Z && (n <=? 21)%Z then
    firstn (Z.to_nat n) digits ++ 46 :: skipn (Z.to_nat n) digits
  else if (-6 <? n)%Z && (n <=? 0)%Z then
    48 :: 46 :: repeat 48 (Z.to_nat (- n)) ++ digits
  else
    let e := (n - 1)%Z in
    let exponent :=
      101 :: (if (0 <=? e)%Z then 43 else 45)
          :: decimal_digits (Z.to_N (Z.abs e)) in
    match digits with
    | [c] => c :: exponent
    | c :: r => c :: 46 :: r ++ exponent
    | [] => exponent
    end.

(** What JSON.stringify writes for the number read from the literal [l]. *)
Definition number_to_string (l : jstring) : jstring :=
  let (m, d) := literal_decimal l in
  match nearest_double m d with
  | DZero => [48]
  | DInfinity => [110; 117; 108; 108]
  | DFinite M E =>
      let (s, p) := shortest 17 M E (decimal_exponent M E) 1 in
      match l with
      | c :: _ => if c =? 45 then 45 :: format_decimal s p
                  else format_decimal s p
      | [] => format_decimal s p
      end
  end.

(** *** Strings, arrays and objects *)

Definition hex_digit (n : N) : N := if n <? 10 then 48 + n else 87 + n.

(** The six characters backslash, u and four lower-case hex digits. *)
Definition unicode_escape (c : N) : jstring :=
  [92; 117; hex_digit (c / 4096 mod 16); hex_digit (c / 256 mod 16);
   hex_digit (c / 16 mod 16); hex_digit (c mod 16)].

Definition is_high_surrogate (c : N) : bool := (55296 <=? c) && (c <=? 56319).
Definition is_low_surrogate (c : N) : bool := (56320 <=? c) && (c <=? 57343).

(** A code unit that is not a surrogate. *)
Definition escape_unit (c : N) : jstring :=
  if c =? 8 then [92; 98]
  else if c =? 9 then [92; 116]
  else if c =? 10 then [92; 110]
  else if c =? 12 then [92; 102]
  else if c =? 13 then [92; 114]
  else if c =? 34 then [92; 34]
  else if c =? 92 then [92; 92]
  else if c <? 32 then unicode_escape c
  else [c].

(** QuoteJSONString without the surrounding quotes: a surrogate pair is
    copied, a lone surrogate is escaped. *)
Fixpoint quote_chars (s : jstring) : jstring :=
  match s with
  | [] => []
  | c :: s' =>
      if is_high_surrogate c then
        match s' with
        | d :: s'' =>
            if is_low_surrogate d then c :: d :: quote_chars s''
            else unicode_escape c ++ quote_chars s'
        | [] => unicode_escape c
        end
      else if is_low_surrogate c then unicode_escape c ++ quote_chars s'
      else escape_unit c ++ quote_chars s'
  end.

Definition quote (s : jstring) : jstring := 34 :: quote_chars s ++ [34].

Fixpoint join (sep : jstring) (l : list jstring) : jstring :=
  match l with
  | [] => []
  | [x] => x
  | x :: l' => x ++ sep ++ join sep l'
  end.

(** [None] is [undefined]: what [JSON.stringify(undefined)] returns.  In an
    object a property whose value is [undefined] is left out; in an array
    such an element is written [null].  A number is written as the
    shortest decimal of the double nearest to its literal, and as [null]
    when that double is infinite. *)
Fixpoint stringify (v : value) : option jstring :=
  match v with
  | VUndef => None
  | VNull => Some (lit "null")
  | VBool true => Some (lit "true")
  | VBool false => Some (lit "false")
  | VNum l => Some (number_to_string l)
  | VStr s => Some (quote s)
  | VArr l =>
      Some (91 :: join [44]
              (map (fun e => match stringify e with
                             | Some t => t
                             | None => lit "null"
                             end) l) ++ [93])
  | VObj ps =>
      Some (123 :: join [44]
              ((fix members (ps : list (jstring * value)) : list jstring :=
                  match ps with
                  | [] => []
                  | (k, v) :: ps' =>
                      match stringify v with
                      | Some t => (quote k ++ 58 :: t) :: members ps'
                      | None => members ps'
                      end
                  end) ps) ++ [125])
  end.

(** [JSON.stringify] applied to an object (never [undefined] then). *)
Definition JSON_stringify (v : value) : jstring :=
  match stringify v with
  | Some t => t
  | None => lit "undefined"
  end.

(** ** The browser environment and the effects of the program

    [localStorage] is a string-keyed store; [log] records, in program order,
    what the program does to the outside: the request it sends, its writes
    to [localStorage], its calls to [console.error].  The entry of
    [decodeJWT] is recorded too, so that the order of a write and of the
    decoding can be stated. *)

Inductive event : Type :=
| EFetch (url : string) (body : jstring)
| ESetItem (key : string) (val : jstring)
| ERemoveItem (key : string)
| EDecodeJWT (token : jstring)
| EConsoleError.

Record Env : Type := mkEnv {
  localStorage : gmap string jstring;
  log : list event;
}.

(** Computations that read and write the environment and may throw. *)
Definition M (A : Type) : Type := Env -> result A * Env.

Definition ret {A} (a : A) : M A := fun e => (Ok a, e).

Definition throw {A} (x : exn) : M A := fun e => (Throw x, e).

Definition bind {A B} (m : M A) (k : A -> M B) : M B :=
  fun e =>
    match m e with
    | (Ok a, e') => k a e'
    | (Throw x, e') => (Throw x, e')
    end.

Notation "x <- m ;; k" := (bind m (fun x => k))
  (at level 100, m at next level, right associativity).
Notation "m ;;; k" := (bind m (fun _ => k))
  (at level 100, right associativity).

(** [try { m } catch (error) { h error }] *)
Definition try_catch {A} (m : M A) (h : exn -> M A) : M A :=
  fun e =>
    match m e with
    | (Ok a, e') => (Ok a, e')
    | (Throw x, e') => h x e'
    end.

Definition lift {A} (r : result A) : M A := fun e => (r, e).

Definition emit (ev : event) : M unit :=
  fun e => (Ok tt, mkEnv (localStorage e) (log e ++ [ev])).

(** [localStorage.setItem], for a store with room left: the write is taken
    to succeed.  A full store, where the call throws a
    [QuotaExceededError], is outside the model, and no statement below is
    about it. *)
Definition setItem (key : string) (val : jstring) : M unit :=
  fun e => (Ok tt, mkEnv (<[key := val]> (localStorage e))
                         (log e ++ [ESetItem key val])).

Definition removeItem (key : string) : M unit :=
  fun e => (Ok tt, mkEnv (delete key (localStorage e))
                         (log e ++ [ERemoveItem key])).

(** [null] is [None]. *)
Definition getItem (key : string) : M (option jstring) :=
  fun e => (Ok (localStorage e !! key), e).

(** ToString of a string that may be [undefined]. *)
Definition to_string (s : option jstring) : jstring :=
  match s with
  | Some t => t
  | None => lit "undefined"
  end.

Module LoginRequest.
Record t : Type := mk {
  email : jstring;
  password : jstring;
}.
End LoginRequest.

(** The JSON body of a response, with the fields that the interfaces
    [LoginResponse] and [ApiError] declare.  A string field that the server
    leaves out is [None] ([undefined]); [user] is [VUndef] until [login]
    sets it. *)
Module LoginResponse.
Record t : Type := mk {
  success : bool;
  accessToken : option jstring;
  refreshToken : option jstring;
  expiresIn : Z;
  message : option jstring;
  errors : option (list (jstring * list jstring));
  user : value;
}.
End LoginResponse.

(** What [fetch] and [response.json()] settle with is an input of the
    model.  [body] is the parsed JSON body; it is [None] when the body is not
    JSON ([response.json()] rejects) and when it is the JSON literal [null]
    (the first property access throws a TypeError): [login] catches both
    in the same way. *)
Record Response : Type := mkResponse {
  http_status : Z;
  body : option LoginResponse.t;
}.

(** [response.ok] *)
Definition ok (r : Response) : bool :=
  ((200 <=? http_status r) && (http_status r <=? 299))%Z.

Inductive fetch_outcome : Type :=
| FetchRejects
| FetchResolves (r : Response).

Definition API_BASE_URL : string := "http://110.34.2.30:5013".

Definition fetch (url : string) (body : jstring) (net : fetch_outcome)
  : M Response :=
  emit (EFetch url body) ;;;
  match net with
  | FetchRejects => throw (JsError "TypeError")
  | FetchResolves r => ret r
  end.

(** [s || d] for a string that may be [undefined]. *)
Definition string_or (s : option jstring) (d : jstring) : jstring :=
  match s with
  | Some t => if truthy_string t then t else d
  | None => d
  end.

(** [s || null] *)
Definition or_null (s : option jstring) : option jstring :=
  match s with
  | Some t => string_or_null t
  | None => None
  end.

(** * authService.ts *)

Module authService.

Definition handleApiResponse (response : Response) : M LoginResponse.t :=
  data <- lift (match body response with
                | Some d => Ok d
                | None => Throw (JsError "SyntaxError")
                end) ;;
  if negb (ok response) then
    throw (AuthErrorE
             (mkAuthError
                (string_or (LoginResponse.message data)
                   (lit "An error occurred"))
                (http_status response)
                (LoginResponse.errors data)))
  else ret data.

(** The body of the [try] block of [decodeJWT]; it has no effect. *)
Definition decodeJWT_try (token : jstring) : result value :=
  let payload := nth_error (split 46 token) 1 in
  match atob (to_string_arg payload) with
  | Ok binary => JSON_parse binary
  | Throw error => Throw error
  end.

Definition decodeJWT (token : jstring) : M value :=
  emit (EDecodeJWT token) ;;;
  try_catch
    (decoded <- lift (decodeJWT_try token) ;;
     ret decoded)
    (fun error => emit EConsoleError ;;; ret VNull).

(** The object literal that [login] builds from the decoded token. *)
Definition userInfo_of (decodedToken : value) : value :=
  VObj [(lit "email", get decodedToken "email");
        (lit "nameid", get decodedToken "nameid");
        (lit "unique_name", get decodedToken "unique_name");
        (lit "role", get decodedToken "role")].

(** [data.user = userInfo] *)
Definition set_user (data : LoginResponse.t) (userInfo : value)
  : LoginResponse.t :=
  LoginResponse.mk
    (LoginResponse.success data)
    (LoginResponse.accessToken data)
    (LoginResponse.refreshToken data)
    (LoginResponse.expiresIn data)
    (LoginResponse.message data)
    (LoginResponse.errors data)
    userInfo.

Definition credentials_json (credentials : LoginRequest.t) : value :=
  VObj [(lit "email", VStr (LoginRequest.email credentials));
        (lit "password", VStr (LoginRequest.password credentials))].

Definition login (credentials : LoginRequest.t) (net : fetch_outcome)
  : M LoginResponse.t :=
  try_catch
    (response <- fetch (API_BASE_URL ++ "/auth/login")
                   (JSON_stringify (credentials_json credentials)) net ;;
     data <- handleApiResponse response ;;
     (* if (data.success && data.accessToken) *)
     match LoginResponse.accessToken data with
     | Some token =>
         if LoginResponse.success data && truthy_string token then
           setItem "accessToken" token ;;;
           setItem "refreshToken"
             (to_string (LoginResponse.refreshToken data)) ;;;
           decodedToken <- decodeJWT token ;;
           if truthy decodedToken then
             let userInfo := userInfo_of decodedToken in
             setItem "user" (JSON_stringify userInfo) ;;;
             ret (set_user data userInfo)   (* data.user = userInfo *)
           else ret data
         else ret data
     | None => ret data
     end)
    (fun error =>
       match error with
       | AuthErrorE _ => throw error
       | _ => throw (AuthErrorE
                       (mkAuthError
                          (lit "Network error or server unavailable")
                          500 None))
       end).

Definition logout : M unit :=
  removeItem "accessToken" ;;;
  removeItem "refreshToken" ;;;
  removeItem "user".

Definition getToken : M (option jstring) := getItem "accessToken".

Definition getRefreshToken : M (option jstring) := getItem "refreshToken".

(** [user ? JSON.parse(user) : null] *)
Definition getStoredUser : M value :=
  user <- getItem "user" ;;
  match user with
  | Some u => if truthy_string u then lift (JSON_parse u) else ret VNull
  | None => ret VNull
  end.

(** [!!token] *)
Definition isAuthenticated : M bool :=
  token <- getToken ;;
  ret (match token with
       | Some t => truthy_string t
       | None => false
       end).

End authService.

(** * features/auth/authSlice.ts *)

Module AuthState.
Record t : Type := mk {
  user : value;                       (* an object, or VNull *)
  accessToken : option jstring;
  refreshToken : option jstring;
  isAuthenticated : bool;
  loading : bool;
  error : option jstring;
  loginMessage : option jstring;
}.
End AuthState.

Module authSlice.

(** Evaluated once, when the module is loaded. *)
Definition initialState : M AuthState.t :=
  user <- authService.getStoredUser ;;
  accessToken <- getItem "accessToken" ;;
  refreshToken <- getItem "refreshToken" ;;
  isAuthenticated <- authService.isAuthenticated ;;
  ret (AuthState.mk (or_else user VNull) accessToken refreshToken
         isAuthenticated false None None).

(** How the payload creator of [loginAsync] settles. *)
Inductive settled : Type :=
| fulfilled (payload : LoginResponse.t)
| rejected (payload : jstring).

(** [error.message]; every exception of the model is an [Error]. *)
Definition error_message (error : exn) : jstring :=
  match error with
  | AuthErrorE e => message e
  | JsError name => lit name
  end.

Definition payloadCreator (credentials : LoginRequest.t)
  (net : fetch_outcome) : M settled :=
  try_catch
    (response <- authService.login credentials net ;;
     ret (fulfilled response))
    (fun error => ret (rejected (error_message error))).

(** ** reducers *)

Definition logout (state : AuthState.t) : M AuthState.t :=
  authService.logout ;;;
  ret (AuthState.mk VNull None None false false None None).

Definition clearError (state : AuthState.t) : AuthState.t :=
  AuthState.mk (AuthState.user state) (AuthState.accessToken state)
    (AuthState.refreshToken state) (AuthState.isAuthenticated state)
    (AuthState.loading state) None (AuthState.loginMessage state).

Definition setLoading (state : AuthState.t) (payload : bool) : AuthState.t :=
  AuthState.mk (AuthState.user state) (AuthState.accessToken state)
    (AuthState.refreshToken state) (AuthState.isAuthenticated state)
    payload (AuthState.error state) (AuthState.loginMessage state).

(** ** extraReducers *)

Definition loginAsync_pending (state : AuthState.t) : AuthState.t :=
  AuthState.mk (AuthState.user state) (AuthState.accessToken state)
    (AuthState.refreshToken state) (AuthState.isAuthenticated state)
    true None (AuthState.loginMessage state).

Definition loginAsync_fulfilled (state : AuthState.t)
  (payload : LoginResponse.t) : AuthState.t :=
  AuthState.mk
    (or_else (LoginResponse.user payload) VNull)
    (or_null (LoginResponse.accessToken payload))
    (or_null (LoginResponse.refreshToken payload))
    true
    false
    None
    (or_null (LoginResponse.message payload)).

Definition loginAsync_rejected (state : AuthState.t) (payload : jstring)
  : AuthState.t :=
  AuthState.mk VNull None None false false (Some payload) None.

(** [dispatch(loginAsync(credentials))]: the pending action is reduced,
    the payload creator runs, and the action it settles with is reduced.
    Returns the new state together with that action. *)
Definition loginAsync (credentials : LoginRequest.t) (net : fetch_outcome)
  (state : AuthState.t) : M (AuthState.t * settled) :=
  let state := loginAsync_pending state in
  action <- payloadCreator credentials net ;;
  match action with
  | fulfilled payload => ret (loginAsync_fulfilled state payload, action)
  | rejected payload => ret (loginAsync_rejected state payload, action)
  end.

End authSlice.

(** * Components/Login.tsx *)

Module Login.

(** The submit handler of the form; [input] is the component's state.
    ([e.preventDefault()] acts on the DOM event only.)  The state returned
    is the one that the handler's dispatch leaves; in the mounted component
    the effect of lines 17 to 21 then runs on it, see
    [LoginComponent.submit]. *)
Definition loginHandler (input : LoginRequest.t) (net : fetch_outcome)
  (state : AuthState.t) : M AuthState.t :=
  if negb (truthy_string (trim (LoginRequest.email input)))
     || negb (truthy_string (trim (LoginRequest.password input)))
  then ret state
  else
    r <- authSlice.loginAsync input net state ;;
    match r with
    | (state', authSlice.fulfilled _) => ret state'
    | (state', authSlice.rejected _) =>
        (* unwrap() throws, the handler logs *)
        emit EConsoleError ;;; ret state'
    end.

Definition handleLogout (state : AuthState.t) : M AuthState.t :=
  authSlice.logout state.

End Login.

(** * The operations of the UI on the application *)

Record World : Type := mkWorld {
  auth : AuthState.t;
  env : Env;
}.

(** [ClearError] is the dispatch of [clearError], by [toggleForm] or by the
    effect that follows a rejected login: what the component shows after
    such a login is the world after [Submit] and then [ClearError]. *)
Inductive op : Type :=
| Submit (input : LoginRequest.t) (net : fetch_outcome)
| Logout
| ClearError
| Reload.

(** A computation that returns the next state, run on the environment of a
    world.  [None] when it throws. *)
Definition run (m : M AuthState.t) (e : Env) : option World :=
  match m e with
  | (Ok st, e') => Some (mkWorld st e')
  | (Throw _, _) => None
  end.

(** [Reload] restarts the page: the in-memory state is discarded and
    [initialState] is evaluated again on the same [localStorage]. *)
Definition step (o : op) (w : World) : option World :=
  match o with
  | Submit input net => run (Login.loginHandler input net (auth w)) (env w)
  | Logout => run (Login.handleLogout (auth w)) (env w)
  | ClearError => run (ret (authSlice.clearError (auth w))) (env w)
  | Reload => run authSlice.initialState (env w)
  end.

Definition empty_env : Env := mkEnv ∅ [].

(** The application loaded on an empty [localStorage]. *)
Definition start : option World := run authSlice.initialState empty_env.

(** The worlds reached from [start] by operations that satisfy [P]. *)
Inductive reachable_by (P : op -> Prop) : World -> Prop :=
| reachable_start w : start = Some w -> reachable_by P w
| reachable_step o w w' :
    P o -> reachable_by P w -> step o w = Some w' -> reachable_by P w'.

Definition reachable : World -> Prop := reachable_by (fun _ => True).

(** The body of the response does not carry a [user] field of its own, as
    the comment of [LoginResponse] says (the field is added by [login]). *)
Definition server_sends_no_user (o : op) : Prop :=
  match o with
  | Submit _ (FetchResolves r) =>
      match body r with
      | Some data => LoginResponse.user data = VUndef
      | None => True
      end
  | _ => True
  end.

(** * Notions used in the statements *)

Definition login_url : string := API_BASE_URL ++ "/auth/login".

(** The request that [login] sends. *)
Definition request_sent (credentials : LoginRequest.t) : event :=
  EFetch login_url
    (JSON_stringify (authService.credentials_json credentials)).

Definition network_error : AuthError :=
  mkAuthError (lit "Network error or server unavailable") 500 None.

(** The environment when [decodeJWT] is entered: the request has been sent
    and the two tokens have been stored. *)
Definition tokens_stored (credentials : LoginRequest.t)
  (data : LoginResponse.t) (token : jstring) (e : Env) : Env :=
  mkEnv
    (<["refreshToken" := to_string (LoginResponse.refreshToken data)]>
       (<["accessToken" := token]> (localStorage e)))
    (log e ++ [request_sent credentials;
               ESetItem "accessToken" token;
               ESetItem "refreshToken"
                 (to_string (LoginResponse.refreshToken data));
               EDecodeJWT token]).

(** The state that [logout] leaves, which is also the state the application
    starts in on an empty [localStorage]. *)
Definition unauthenticated : AuthState.t :=
  AuthState.mk VNull None None false false None None.

(** The ways a login fails, with the message it fails with: a transport
    error ([fetch] rejects, or the body cannot be read as JSON), or a
    response outside 200..299, whose body carries the non-empty message [M]
    or no message at all. *)
Inductive login_fails : fetch_outcome -> jstring -> Prop :=
| transport_error :
    login_fails FetchRejects (lit "Network error or server unavailable")
| body_not_json (st : Z) :
    login_fails (FetchResolves (mkResponse st None))
      (lit "Network error or server unavailable")
| api_error (st : Z) (data : LoginResponse.t) (M : jstring) :
    ok (mkResponse st (Some data)) = false ->
    LoginResponse.message data = Some M ->
    M <> [] ->
    login_fails (FetchResolves (mkResponse st (Some data))) M
| api_error_no_message (st : Z) (data : LoginResponse.t) :
    ok (mkResponse st (Some data)) = false ->
    or_null (LoginResponse.message data) = None ->
    login_fails (FetchResolves (mkResponse st (Some data)))
      (lit "An error occurred").

(** What [decodeJWT] returns: the parsed payload, or [null] when the [try]
    block throws. *)
Definition decoded (token : jstring) : value :=
  match authService.decodeJWT_try token with
  | Ok v => v
  | Throw _ => VNull
  end.


(** The [loginFailed] state of the specification. *)
Definition login_failed (st : AuthState.t) : Prop :=
  AuthState.isAuthenticated st = false /\ AuthState.error st <> None.


(** What holds in every world: a user record in the state comes with an
    access token in the state, and a stored user record comes with a stored
    access token. *)
Definition user_has_token (w : World) : Prop :=
  (AuthState.user (auth w) <> VNull ->
   AuthState.accessToken (auth w) <> None)
  /\ (localStorage (env w) !! "user" <> None ->
      localStorage (env w) !! "accessToken" <> None).

(** With two units of fuel per character, no parser returns [PFuel]. *)
Definition fuel_ok (f : nat) : Prop :=
  (forall s, (2 * length s + 1 <= f)%nat ->
     parse_value f s <> PFuel) /\
  (forall s acc, (2 * length s + 2 <= f)%nat ->
     parse_elements f s acc <> PFuel) /\
  (forall s acc, (2 * length s + 2 <= f)%nat ->
     parse_members f s acc <> PFuel).

(** ** The inputs of the examples *)

Definition credentials_A : LoginRequest.t :=
  LoginRequest.mk (lit "a@b.com") (lit "secret").

(** Scenario A of the specification: the payload of the token is the record
    with email a@b.com, nameid 42, unique_name Alice and role Admin. *)
Definition token_A : jstring :=
  lit ("eyJhbGciOiJIUzI1NiIsInR5cCI6IkpXVCJ9."
       ++ "eyJlbWFpbCI6ImFAYi5jb20iLCJuYW1laWQiOiI0MiIsInVuaXF1ZV9uYW1lIjoi"
       ++ "QWxpY2UiLCJyb2xlIjoiQWRtaW4ifQ==.sig").

Definition data_A : LoginResponse.t :=
  LoginResponse.mk true (Some token_A) (Some (lit "r1")) 0
    (Some (lit "ok")) None VUndef.

Definition fields_A : list (jstring * value) :=
  [(lit "email", VStr (lit "a@b.com"));
   (lit "nameid", VStr (lit "42"));
   (lit "unique_name", VStr (lit "Alice"));
   (lit "role", VStr (lit "Admin"))].

Definition user_A : value := VObj fields_A.






(** A 2xx body whose token has no dot. *)
Definition data_undecodable : LoginResponse.t :=
  LoginResponse.mk true (Some (lit "abc")) (Some (lit "r1")) 0
    (Some (lit "ok")) None VUndef.

(** An environment that still holds the record of an earlier session. *)
Definition env_stale_user : Env :=
  mkEnv (<["user" := lit "{}"]> ∅) [].

(** * Properties of the primitives *)

(** * The rest of authService.ts: authenticatedApiCall *)

(** [HeadersInit]: what [options.headers] may be.  A plain object of header
    names and values, a [Headers] instance, or an array of name and value
    pairs. *)
Inductive HeadersInit : Type :=
| HeadersRecord (properties : gmap string jstring)
| HeadersObject (entries : list (string * jstring))
| HeadersArray (pairs : list (list jstring)).

(** The second argument of [fetch], with the fields this code sets or reads;
    [headers] is [None] when [options.headers] is absent.  The other fields
    of [options] are copied by the spread in the same way as [method] and
    [body]. *)
Module RequestInit.
Record t : Type := mk {
  method : option jstring;
  headers : option HeadersInit;
  body : option jstring;
}.
End RequestInit.

(** [...options.headers]: the own enumerable properties that an object
    spread copies.  They are the properties of a plain object; a [Headers]
    instance has none (its entries are not properties); an array has one for
    each index, named by the index, whose value is the pair at that index,
    given here as [fetch] reads it, joined by a comma. *)
Definition spread_headers (h : option HeadersInit) : gmap string jstring :=
  match h with
  | None => ∅
  | Some (HeadersRecord properties) => properties
  | Some (HeadersObject _) => ∅
  | Some (HeadersArray pairs) =>
      list_to_map (imap (fun i pair => (pretty i, join [44] pair)) pairs)
  end.

(** [...(token && { Authorization: `Bearer ${token}` })]: nothing is spread
    when the token is [null] or empty. *)
Definition bearer (token : option jstring) : gmap string jstring :=
  match token with
  | Some t =>
      if truthy_string t then {["Authorization" := lit "Bearer " ++ t]} else ∅
  | None => ∅
  end.

(** The [headers] object passed to [fetch].  An object literal lets a later
    property replace an earlier one of the same name: the union is biased to
    its left operand. *)
Definition api_headers (token : option jstring) (options : RequestInit.t)
  : gmap string jstring :=
  spread_headers (RequestInit.headers options)
    ∪ (bearer token ∪ {["Content-Type" := lit "application/json"]}).

(** The second argument of the call of [fetch]. *)
Module FetchInit.
Record t : Type := mk {
  method : option jstring;
  headers : gmap string jstring;
  body : option jstring;
}.
End FetchInit.

(** [server] is what the request settles with (the checks that [fetch]
    itself makes on the request included), as a function of the URL and of
    the request.  The body of the response has the type of the login
    response: [handleApiResponse] reads [message] and [errors] only, and
    returns the body as it is. *)
Definition authenticatedApiCall (endpoint : string) (options : RequestInit.t)
  (server : string -> FetchInit.t -> fetch_outcome) : M LoginResponse.t :=
  token <- authService.getToken ;;
  let headers := api_headers token options in
  let init := FetchInit.mk (RequestInit.method options) headers
                (RequestInit.body options) in
  response <- fetch (String.append API_BASE_URL endpoint)
                (match FetchInit.body init with Some b => b | None => [] end)
                (server (String.append API_BASE_URL endpoint) init) ;;
  authService.handleApiResponse response.

(** * The rest of Login.tsx: the effect that clears the error *)

Module LoginComponent.

(** The effect of lines 17 to 21, which runs after a render in which
    [error] has changed: [if (error) dispatch(clearError())]. *)
Definition clearErrorEffect (state : AuthState.t) : AuthState.t :=
  match AuthState.error state with
  | Some m => if truthy_string m then authSlice.clearError state else state
  | None => state
  end.

(** A submit in the mounted component: the handler, then the effect on the
    state that the handler's dispatch leaves. *)
Definition submit (input : LoginRequest.t) (net : fetch_outcome)
  (state : AuthState.t) : M AuthState.t :=
  state' <- Login.loginHandler input net state ;;
  ret (clearErrorEffect state').

End LoginComponent.

(** * features/todo/todoSlice.ts *)

Module Todo.
Record t : Type := mk {
  id : jstring;
  text : jstring;
}.
End Todo.

Module todoSlice.

Record TodoState : Type := mkTodoState {
  todos : list Todo.t;
}.

Definition initialState : TodoState :=
  mkTodoState [Todo.mk (lit "1") (lit "Hello world")].

(** [nanoid] is the identifier that the call [nanoid()] returns. *)
Definition addTodo (state : TodoState) (nanoid : jstring) (payload : jstring)
  : TodoState :=
  let todo := Todo.mk nanoid payload in
  mkTodoState (todos state ++ [todo]).

Definition removeTodo (state : TodoState) (payload : jstring) : TodoState :=
  mkTodoState
    (List.filter (fun todo => negb (jstring_eqb (Todo.id todo) payload))
       (todos state)).

(** The actions of the slice, and the states they lead to from the initial
    one. *)
Inductive action : Type :=
| AddTodo (nanoid : jstring) (payload : jstring)
| RemoveTodo (payload : jstring).

Definition reducer (state : TodoState) (a : action) : TodoState :=
  match a with
  | AddTodo nanoid payload => addTodo state nanoid payload
  | RemoveTodo payload => removeTodo state payload
  end.

End todoSlice.

(** ** Notions used in the statements about the rest of the code *)

Definition is_fetch (ev : event) : bool :=
  match ev with
  | EFetch _ _ => true
  | _ => false
  end.

(** A key of [localStorage] that is none of the three session keys. *)
Definition other_key (k : string) : Prop :=
  k <> "accessToken" /\ k <> "refreshToken" /\ k <> "user".

Definition todo_ids (state : todoSlice.TodoState) : list jstring :=
  map Todo.id (todoSlice.todos state).

(** Every [AddTodo] of the list comes with an identifier that is not in use
    when it is reduced. *)
Fixpoint fresh_ids (state : todoSlice.TodoState)
  (actions : list todoSlice.action) : Prop :=
  match actions with
  | [] => True
  | a :: actions' =>
      match a with
      | todoSlice.AddTodo nanoid _ => ~ In nanoid (todo_ids state)
      | todoSlice.RemoveTodo _ => True
      end
      /\ fresh_ids (todoSlice.reducer state a) actions'
  end.

(** ** The primitives on some inputs *)

Example split_three : split 46 (lit "a.b.c") = [lit "a"; lit "b"; lit "c"].
Proof. reflexivity. Qed.

Example split_no_dot : split 46 (lit "abc") = [lit "abc"].
Proof. reflexivity. Qed.

Example split_empty : split 46 [] = [[]].
Proof. reflexivity. Qed.

Example trim_spaces : trim (lit "  a b  ") = lit "a b".
Proof. reflexivity. Qed.

Example atob_padded : atob (lit "YQ==") = Ok (lit "a").
Proof. reflexivity. Qed.

Example atob_unpadded : atob (lit "e30") = Ok (lit "{}").
Proof. reflexivity. Qed.

Example atob_spaces : atob (lit " YW Jj ") = Ok (lit "abc").
Proof. reflexivity. Qed.

Example atob_bad_padding :
  atob (lit "a===") = Throw (JsError "InvalidCharacterError").
Proof. reflexivity. Qed.

Example atob_base64url :
  atob (lit "a-b_") = Throw (JsError "InvalidCharacterError").
Proof. reflexivity. Qed.

Example atob_undefined :
  atob (to_string_arg None) = Throw (JsError "InvalidCharacterError").
Proof. reflexivity. Qed.

Example parse_array :
  JSON_parse (lit " [1, -2.5e3, true, false, null, [], {}] ") =
    Ok (VArr [VNum (lit "1"); VNum (lit "-2.5e3"); VBool true; VBool false;
              VNull; VArr []; VObj []]).
Proof. vm_compute. reflexivity. Qed.

Example parse_leading_zero :
  JSON_parse (lit "01") = Throw (JsError "SyntaxError").
Proof. vm_compute. reflexivity. Qed.

Example parse_trailing_comma :
  JSON_parse (lit "[1,]") = Throw (JsError "SyntaxError").
Proof. vm_compute. reflexivity. Qed.

Example parse_empty : JSON_parse [] = Throw (JsError "SyntaxError").
Proof. vm_compute. reflexivity. Qed.

Example stringify_skips_undefined :
  JSON_stringify (VObj [(lit "a", VUndef); (lit "b", VArr [VUndef; VNull])]) =
    [123; 34; 98; 34; 58; 91; 110; 117; 108; 108; 44; 110; 117; 108; 108;
     93; 125].
Proof. vm_compute. reflexivity. Qed.

Example stringify_numbers :
  JSON_stringify
    (VArr [VNum (lit "1.0"); VNum (lit "12345678901234567890");
           VNum (lit "1e999"); VNum (lit "-0"); VNum (lit "1e-7");
           VNum (lit "0.1e1"); VNum (lit "1e21")]) =
    lit "[1,12345678901234567000,null,0,1e-7,1,1e+21]".
Proof. vm_compute. reflexivity. Qed.

Example truthy_numbers :
  map truthy [VNum (lit "0"); VNum (lit "-0.0e5"); VNum (lit "1e-400");
              VNum (lit "2e-324"); VNum (lit "3e-324"); VNum (lit "1")] =
    [false; false; false; false; true; true].
Proof. vm_compute. reflexivity. Qed.

Example parse_duplicate_and_index_keys :
  JSON_parse
    (JSON_stringify
       (VObj [(lit "b", VNull); (lit "10", VNull); (lit "2", VNull);
              (lit "b", VBool true)])) =
    Ok (VObj [(lit "2", VNull); (lit "10", VNull); (lit "b", VBool true)]).
Proof. vm_compute. reflexivity. Qed.

Section Primitives.

Lemma hex_value_digit (n : N) : n < 16 -> hex_value (hex_digit n) = Some n.
Proof.
  intros Hn. unfold hex_value, hex_digit.
  destruct (n <? 10) eqn:E.
  - apply N.ltb_lt in E.
    replace ((48 <=? 48 + n) && (48 + n <=? 57)) with true
      by (symmetry; apply andb_true_intro; split; apply N.leb_le; lia).
    f_equal. lia.
  - apply N.ltb_ge in E.
    replace ((48 <=? 87 + n) && (87 + n <=? 57)) with false
      by (symmetry; apply andb_false_intro2; apply N.leb_gt; lia).
    replace ((97 <=? 87 + n) && (87 + n <=? 102)) with true
      by (symmetry; apply andb_true_intro; split; apply N.leb_le; lia).
    f_equal. lia.
Qed.

Lemma parse_unicode_escape (c : N) (rest : jstring) :
  c < 65536 ->
  parse_chars (unicode_escape c ++ rest) = cons_char c (parse_chars rest).
Proof.
  intros Hc. unfold unicode_escape.
  cbn [app parse_chars N.eqb Pos.eqb].
  unfold hex4_value.
  rewrite !hex_value_digit by (apply N.mod_upper_bound; lia).
  f_equal.
  pose proof (N.div_mod c 16 ltac:(lia)) as H0.
  pose proof (N.div_mod (c / 16) 16 ltac:(lia)) as H1.
  pose proof (N.div_mod (c / 256) 16 ltac:(lia)) as H2.
  rewrite (N.Div0.div_div c 16 16) in H1.
  rewrite (N.Div0.div_div c 256 16) in H2.
  change (16 * 16) with 256 in H1. change (256 * 16) with 4096 in H2.
  assert (c / 4096 < 16) as H3 by (apply N.Div0.div_lt_upper_bound; lia).
  rewrite (N.mod_small (c / 4096) 16 H3).
  lia.
Qed.


(** A character that [quote_chars] copies is read back as itself. *)
Lemma parse_plain_char (c : N) (rest : jstring) :
  c <> 34 -> c <> 92 -> 32 <= c ->
  parse_chars (c :: rest) = cons_char c (parse_chars rest).
Proof.
  intros H1 H2 H3. cbn [parse_chars].
  apply N.eqb_neq in H1, H2. rewrite H1, H2.
  replace (c <? 32) with false by (symmetry; apply N.ltb_ge; lia).
  reflexivity.
Qed.

Lemma parse_escape_unit (c : N) (rest : jstring) :
  c < 65536 ->
  parse_chars (escape_unit c ++ rest) = cons_char c (parse_chars rest).
Proof.
  intros Hc. unfold escape_unit.
  repeat match goal with
         | |- context [if ?x =? ?k then _ else _] =>
             destruct (N.eqb_spec x k) as [-> | ?]; [reflexivity |]
         end.
  destruct (N.ltb_spec c 32).
  - apply parse_unicode_escape. assumption.
  - apply parse_plain_char; assumption.
Qed.

Lemma parse_chars_quote_aux (n : nat) :
  forall s rest, (length s <= n)%nat ->
    parse_chars (quote_chars s ++ 34 :: rest) = Some (s, rest).
Proof.
  induction n as [| n IH]; intros s rest Hlen.
  - destruct s; [reflexivity | simpl in Hlen; lia].
  - destruct s as [| c s']; [reflexivity |].
    simpl in Hlen. cbn [quote_chars].
    destruct (is_high_surrogate c) eqn:Hh.
    + unfold is_high_surrogate in Hh.
      apply andb_prop in Hh as [Hh1 Hh2].
      apply N.leb_le in Hh1, Hh2.
      destruct s' as [| d s''].
      * rewrite parse_unicode_escape by lia. reflexivity.
      * destruct (is_low_surrogate d) eqn:Hl.
        -- unfold is_low_surrogate in Hl.
           apply andb_prop in Hl as [Hl1 Hl2].
           apply N.leb_le in Hl1, Hl2.
           cbn [app].
           rewrite parse_plain_char by lia.
           rewrite parse_plain_char by lia.
           simpl in Hlen. rewrite IH by lia. reflexivity.
        -- rewrite <- app_assoc, parse_unicode_escape by lia.
           rewrite IH by lia. reflexivity.
    + destruct (is_low_surrogate c) eqn:Hl.
      * unfold is_low_surrogate in Hl.
        apply andb_prop in Hl as [Hl1 Hl2].
        apply N.leb_le in Hl1, Hl2.
        rewrite <- app_assoc, parse_unicode_escape by lia.
        rewrite IH by lia. reflexivity.
      * rewrite <- app_assoc.
        destruct (N.ltb_spec c 65536) as [Hc | Hc].
        -- rewrite parse_escape_unit by assumption.
           rewrite IH by lia. reflexivity.
        -- unfold escape_unit.
           repeat match goal with
                  | |- context [if ?x =? ?k then _ else _] =>
                      destruct (N.eqb_spec x k); [lia |]
                  end.
           replace (c <? 32) with false by (symmetry; apply N.ltb_ge; lia).
           cbn [app]. rewrite parse_plain_char by lia.
           rewrite IH by lia. reflexivity.
Qed.

(** Reading back a string written by [quote]. *)
Lemma parse_chars_quote (s rest : jstring) :
  parse_chars (quote_chars s ++ 34 :: rest) = Some (s, rest).
Proof. apply (parse_chars_quote_aux (length s)). lia. Qed.

End Primitives.

(** ** [JSON.parse] never runs out of fuel *)

Section Fuel.

Lemma skip_ws_length (s : jstring) : (length (skip_ws s) <= length s)%nat.
Proof.
  induction s as [| c s IH]; simpl; [lia |].
  destruct ((c =? 9) || (c =? 10) || (c =? 13) || (c =? 32)); simpl; lia.
Qed.

Lemma cons_char_length c o str r (n : nat) :
  cons_char c o = Some (str, r) ->
  (forall str' r', o = Some (str', r') -> (length r' <= n)%nat) ->
  (length r <= n)%nat.
Proof.
  destruct o as [[str' r'] |]; simpl; intros H Hn; [| discriminate].
  injection H as _ <-. eauto.
Qed.

Lemma parse_chars_length_aux (n : nat) :
  forall s str r, (length s <= n)%nat ->
    parse_chars s = Some (str, r) -> (length r <= length s)%nat.
Proof.
  induction n as [| n IH]; intros s str r Hlen H.
  - destruct s; [discriminate | simpl in Hlen; lia].
  - destruct s as [| c s']; [discriminate |].
    simpl in Hlen. cbn [parse_chars] in H.
    destruct (c =? 34).
    { injection H as _ <-. simpl. lia. }
    destruct (c =? 92).
    + destruct s' as [| e s'']; [discriminate |].
      destruct (e =? 117).
      * destruct s'' as [| h1 [| h2 [| h3 [| h4 r0]]]]; try discriminate.
        destruct (hex4_value h1 h2 h3 h4); [| discriminate].
        simpl in Hlen.
        eapply cons_char_length in H;
          [| intros str' r' H'; apply IH in H'; [exact H' | lia]].
        simpl. lia.
      * destruct (unescape e); [| discriminate].
        simpl in Hlen.
        eapply cons_char_length in H;
          [| intros str' r' H'; apply IH in H'; [exact H' | lia]].
        simpl. lia.
    + destruct (c <? 32); [discriminate |].
      eapply cons_char_length in H;
        [| intros str' r' H'; apply IH in H'; [exact H' | lia]].
      simpl. lia.
Qed.

Lemma parse_chars_length s str r :
  parse_chars s = Some (str, r) -> (length r <= length s)%nat.
Proof. apply (parse_chars_length_aux (length s)). lia. Qed.

Lemma take_digits_length (s : jstring) :
  (length (snd (take_digits s)) <= length s)%nat.
Proof.
  induction s as [| c s IH]; simpl; [lia |].
  destruct (is_digit c); simpl; [| lia].
  destruct (take_digits s). simpl in *. lia.
Qed.

Lemma parse_int_length s l r :
  parse_int s = Some (l, r) -> (length r <= length s)%nat.
Proof.
  unfold parse_int. destruct s as [| c s]; [discriminate |].
  destruct (c =? 48).
  { intros H. injection H as _ <-. simpl. lia. }
  destruct (is_digit c); [| discriminate].
  pose proof (take_digits_length s) as Hd.
  destruct (take_digits s). intros H. injection H as _ <-.
  simpl in *. lia.
Qed.

Lemma parse_frac_length s l r :
  parse_frac s = Some (l, r) -> (length r <= length s)%nat.
Proof.
  unfold parse_frac. destruct s as [| c s].
  { intros H. injection H as _ <-. lia. }
  destruct (c =? 46).
  - pose proof (take_digits_length s) as Hd.
    destruct (take_digits s) as [[| d ds] r']; [discriminate |].
    intros H. injection H as _ <-. simpl in *. lia.
  - intros H. injection H as _ <-. lia.
Qed.

Lemma parse_exp_length s l r :
  parse_exp s = Some (l, r) -> (length r <= length s)%nat.
Proof.
  unfold parse_exp. destruct s as [| c s].
  { intros H. injection H as _ <-. lia. }
  destruct ((c =? 101) || (c =? 69)).
  - destruct s as [| g s0].
    + simpl. discriminate.
    + destruct ((g =? 43) || (g =? 45)).
      * pose proof (take_digits_length s0) as Hd.
        destruct (take_digits s0) as [[| d ds] r']; [discriminate |].
        intros H. injection H as _ <-. simpl in *. lia.
      * pose proof (take_digits_length (g :: s0)) as Hd.
        destruct (take_digits (g :: s0)) as [[| d ds] r']; [discriminate |].
        intros H. injection H as _ <-. simpl in *. lia.
  - intros H. injection H as _ <-. lia.
Qed.

Lemma parse_number_length s l r :
  parse_number s = Some (l, r) -> (length r <= length s)%nat.
Proof.
  unfold parse_number.
  set (p := match s with
            | [] => ([], s)
            | c :: r0 => if c =? 45 then ([c], r0) else ([], s)
            end).
  assert (length (snd p) <= length s)%nat as Hp.
  { subst p. destruct s as [| c r0]; simpl; [lia |].
    destruct (c =? 45); simpl; lia. }
  destruct p as [sign s1]. simpl in Hp.
  destruct (parse_int s1) as [[i s2] |] eqn:Hi; [| discriminate].
  destruct (parse_frac s2) as [[f s3] |] eqn:Hf; [| discriminate].
  destruct (parse_exp s3) as [[e s4] |] eqn:He; [| discriminate].
  intros H. injection H as _ <-.
  apply parse_int_length in Hi. apply parse_frac_length in Hf.
  apply parse_exp_length in He. lia.
Qed.

Lemma strip_prefix_length (p s r : jstring) :
  strip_prefix p s = Some r -> (length r <= length s)%nat.
Proof.
  revert s. induction p as [| x p IH]; intros s; simpl.
  - intros H. injection H as <-. lia.
  - destruct s as [| y s]; [discriminate |].
    destruct (x =? y); [| discriminate].
    intros H. apply IH in H. simpl. lia.
Qed.

Lemma parse_rest_length (f : nat) :
  (forall s v r, parse_value f s = POk v r -> (length r <= length s)%nat) /\
  (forall s acc v r,
     parse_elements f s acc = POk v r -> (length r <= length s)%nat) /\
  (forall s acc v r,
     parse_members f s acc = POk v r -> (length r <= length s)%nat).
Proof.
  induction f as [| f (IHv & IHe & IHm)].
  { repeat split; intros; discriminate. }
  repeat split.
  - intros s v r. cbn [parse_value].
    pose proof (skip_ws_length s) as Hs.
    destruct (skip_ws s) as [| c t]; [discriminate |]. simpl in Hs.
    destruct (c =? 34).
    { destruct (parse_chars t) as [[str r'] |] eqn:Hc; [| discriminate].
      intros H. injection H as _ <-.
      apply parse_chars_length in Hc. lia. }
    destruct (c =? 91).
    { pose proof (skip_ws_length t) as Ht.
      destruct (skip_ws t) as [| c' r']; [discriminate |]. simpl in Ht.
      destruct (c' =? 93).
      - intros H. injection H as _ <-. lia.
      - intros H. apply IHe in H. lia. }
    destruct (c =? 123).
    { pose proof (skip_ws_length t) as Ht.
      destruct (skip_ws t) as [| c' r']; [discriminate |]. simpl in Ht.
      destruct (c' =? 125).
      - intros H. injection H as _ <-. lia.
      - intros H. apply IHm in H. lia. }
    destruct ((c =? 45) || is_digit c).
    { destruct (parse_number (c :: t)) as [[l r'] |] eqn:Hn; [| discriminate].
      intros H. injection H as _ <-.
      apply parse_number_length in Hn. simpl in Hn. lia. }
    destruct (strip_prefix (lit "null") (c :: t)) eqn:H1.
    { intros H. injection H as _ <-.
      apply strip_prefix_length in H1. simpl in H1. lia. }
    destruct (strip_prefix (lit "true") (c :: t)) eqn:H2.
    { intros H. injection H as _ <-.
      apply strip_prefix_length in H2. simpl in H2. lia. }
    destruct (strip_prefix (lit "false") (c :: t)) eqn:H3; [| discriminate].
    intros H. injection H as _ <-.
    apply strip_prefix_length in H3. simpl in H3. lia.
  - intros s acc v r. cbn [parse_elements].
    destruct (parse_value f s) as [v0 r0 | |] eqn:Hv; try discriminate.
    apply IHv in Hv.
    pose proof (skip_ws_length r0) as Hs.
    destruct (skip_ws r0) as [| c r']; [discriminate |]. simpl in Hs.
    destruct (c =? 44).
    { intros H. apply IHe in H. lia. }
    destruct (c =? 93); [| discriminate].
    intros H. injection H as _ <-. lia.
  - intros s acc v r. cbn [parse_members].
    pose proof (skip_ws_length s) as Hs.
    destruct (skip_ws s) as [| c t]; [discriminate |]. simpl in Hs.
    destruct (c =? 34); [| discriminate].
    destruct (parse_chars t) as [[k r1] |] eqn:Hc; [| discriminate].
    apply parse_chars_length in Hc.
    pose proof (skip_ws_length r1) as Hs1.
    destruct (skip_ws r1) as [| c1 r2]; [discriminate |]. simpl in Hs1.
    destruct (c1 =? 58); [| discriminate].
    destruct (parse_value f r2) as [v0 r3 | |] eqn:Hv; try discriminate.
    apply IHv in Hv.
    pose proof (skip_ws_length r3) as Hs3.
    destruct (skip_ws r3) as [| c3 r4]; [discriminate |]. simpl in Hs3.
    destruct (c3 =? 44).
    { intros H. apply IHm in H. lia. }
    destruct (c3 =? 125); [| discriminate].
    intros H. injection H as _ <-. lia.
Qed.

Lemma fuel_ok_all (f : nat) : fuel_ok f.
Proof.
  induction f as [| f (IHv & IHe & IHm)].
  { repeat split; intros; simpl in *; lia. }
  destruct (parse_rest_length f) as (Lv & Le & Lm).
  repeat split.
  - intros s Hf. cbn [parse_value].
    pose proof (skip_ws_length s) as Hs.
    destruct (skip_ws s) as [| c t]; [discriminate |]. simpl in Hs.
    destruct (c =? 34).
    { destruct (parse_chars t) as [[str r'] |]; discriminate. }
    destruct (c =? 91).
    { pose proof (skip_ws_length t) as Ht.
      destruct (skip_ws t) as [| c' r']; [discriminate |].
      destruct (c' =? 93); [discriminate |]. apply IHe. lia. }
    destruct (c =? 123).
    { pose proof (skip_ws_length t) as Ht.
      destruct (skip_ws t) as [| c' r']; [discriminate |].
      destruct (c' =? 125); [discriminate |]. apply IHm. lia. }
    destruct ((c =? 45) || is_digit c).
    { destruct (parse_number (c :: t)) as [[l r'] |]; discriminate. }
    destruct (strip_prefix (lit "null") (c :: t)); [discriminate |].
    destruct (strip_prefix (lit "true") (c :: t)); [discriminate |].
    destruct (strip_prefix (lit "false") (c :: t)); discriminate.
  - intros s acc Hf. cbn [parse_elements].
    pose proof (IHv s ltac:(lia)) as Hne.
    destruct (parse_value f s) as [v0 r0 | |] eqn:Hv;
      [| discriminate | congruence].
    apply Lv in Hv.
    pose proof (skip_ws_length r0) as Hs.
    destruct (skip_ws r0) as [| c r']; [discriminate |]. simpl in Hs.
    destruct (c =? 44).
    { apply IHe. lia. }
    destruct (c =? 93); discriminate.
  - intros s acc Hf. cbn [parse_members].
    pose proof (skip_ws_length s) as Hs.
    destruct (skip_ws s) as [| c t]; [discriminate |]. simpl in Hs.
    destruct (c =? 34); [| discriminate].
    destruct (parse_chars t) as [[k r1] |] eqn:Hc; [| discriminate].
    apply parse_chars_length in Hc.
    pose proof (skip_ws_length r1) as Hs1.
    destruct (skip_ws r1) as [| c1 r2]; [discriminate |]. simpl in Hs1.
    destruct (c1 =? 58); [| discriminate].
    pose proof (IHv r2 ltac:(lia)) as Hne.
    destruct (parse_value f r2) as [v0 r3 | |] eqn:Hv;
      [| discriminate | congruence].
    apply Lv in Hv.
    pose proof (skip_ws_length r3) as Hs3.
    destruct (skip_ws r3) as [| c3 r4]; [discriminate |]. simpl in Hs3.
    destruct (c3 =? 44).
    { apply IHm. lia. }
    destruct (c3 =? 125); discriminate.
Qed.

Lemma parse_fuel_enough (text : jstring) :
  parse_value (parse_fuel text) text <> PFuel.
Proof.
  apply (fuel_ok_all (parse_fuel text)). unfold parse_fuel. lia.
Qed.

End Fuel.

(** * What [login] does, case by case *)

Section LoginCases.

Variable credentials : LoginRequest.t.

(** [fetch] rejects. *)
Lemma login_fetch_rejects (e : Env) :
  authService.login credentials FetchRejects e =
    (Throw (AuthErrorE network_error),
     mkEnv (localStorage e) (log e ++ [request_sent credentials])).
Proof. reflexivity. Qed.

(** The body is not JSON. *)
Lemma login_body_not_json (st : Z) (e : Env) :
  authService.login credentials (FetchResolves (mkResponse st None)) e =
    (Throw (AuthErrorE network_error),
     mkEnv (localStorage e) (log e ++ [request_sent credentials])).
Proof. reflexivity. Qed.

(** A response outside 200..299. *)
Lemma login_not_ok (st : Z) (data : LoginResponse.t) (e : Env) :
  ok (mkResponse st (Some data)) = false ->
  authService.login credentials
      (FetchResolves (mkResponse st (Some data))) e =
    (Throw (AuthErrorE
              (mkAuthError
                 (string_or (LoginResponse.message data)
                    (lit "An error occurred"))
                 st (LoginResponse.errors data))),
     mkEnv (localStorage e) (log e ++ [request_sent credentials])).
Proof.
  intros Hok.
  unfold authService.login, authService.handleApiResponse, fetch,
    try_catch, bind, lift, emit, ret, throw.
  cbn [body http_status]. rewrite Hok. reflexivity.
Qed.

(** A 2xx response without [success] or without a non-empty token:
    nothing is stored. *)
Lemma login_ok_no_token (st : Z) (data : LoginResponse.t) (e : Env) :
  ok (mkResponse st (Some data)) = true ->
  (LoginResponse.success data = false
   \/ or_null (LoginResponse.accessToken data) = None) ->
  authService.login credentials
      (FetchResolves (mkResponse st (Some data))) e =
    (Ok data, mkEnv (localStorage e) (log e ++ [request_sent credentials])).
Proof.
  intros Hok H.
  unfold authService.login, authService.handleApiResponse, fetch,
    try_catch, bind, lift, emit, ret, throw.
  cbn [body http_status]. rewrite Hok. cbn [negb].
  destruct (LoginResponse.accessToken data) as [token |]; [| reflexivity].
  destruct H as [-> | H]; [reflexivity |].
  unfold or_null, string_or_null in H.
  destruct (truthy_string token); [discriminate |].
  rewrite andb_false_r. reflexivity.
Qed.

(** A 2xx response with [success] and a non-empty token: the two tokens
    are stored, then the token is decoded. *)
Lemma login_ok_token (st : Z) (data : LoginResponse.t) (token : jstring)
  (e : Env) :
  ok (mkResponse st (Some data)) = true ->
  LoginResponse.success data = true ->
  LoginResponse.accessToken data = Some token ->
  token <> [] ->
  authService.login credentials
      (FetchResolves (mkResponse st (Some data))) e =
    let e1 := tokens_stored credentials data token e in
    match authService.decodeJWT_try token with
    | Ok decodedToken =>
        if truthy decodedToken then
          let userInfo := authService.userInfo_of decodedToken in
          (Ok (authService.set_user data userInfo),
           mkEnv (<["user" := JSON_stringify userInfo]> (localStorage e1))
             (log e1 ++ [ESetItem "user" (JSON_stringify userInfo)]))
        else (Ok data, e1)
    | Throw _ =>
        (Ok data, mkEnv (localStorage e1) (log e1 ++ [EConsoleError]))
    end.
Proof.
  intros Hok Hs Ht Hne.
  unfold authService.login, authService.handleApiResponse,
    authService.decodeJWT, fetch, try_catch, bind, lift, emit, setItem,
    ret, throw, tokens_stored.
  cbn [body http_status localStorage log]. rewrite Hok. cbn [negb].
  rewrite Ht, Hs. cbn [andb].
  destruct token as [| c token]; [congruence |]. cbn [truthy_string].
  destruct (authService.decodeJWT_try (c :: token)) as [d | x];
    [destruct (truthy d) |];
    cbn [localStorage log]; rewrite <- ?app_assoc; reflexivity.
Qed.

End LoginCases.

(** * The claims of the specification *)

(** ** clearError *)

(** C9. From any world, [clearError] succeeds, sets [error] to [null] and
    leaves the six other fields of the state, and the environment, as they
    were. *)
Theorem clearError_frame (w : World) :
  exists st',
    step ClearError w = Some (mkWorld st' (env w))
    /\ AuthState.error st' = None
    /\ AuthState.user st' = AuthState.user (auth w)
    /\ AuthState.accessToken st' = AuthState.accessToken (auth w)
    /\ AuthState.refreshToken st' = AuthState.refreshToken (auth w)
    /\ AuthState.isAuthenticated st' = AuthState.isAuthenticated (auth w)
    /\ AuthState.loading st' = AuthState.loading (auth w)
    /\ AuthState.loginMessage st' = AuthState.loginMessage (auth w).
Proof.
  exists (authSlice.clearError (auth w)).
  destruct w as [[u a r i l err m] e]. cbn. repeat split; reflexivity.
Qed.

(** ** logout *)

Lemma logout_world (w : World) :
  step Logout w =
    Some (mkWorld unauthenticated
            (mkEnv (delete "user"
                      (delete "refreshToken"
                         (delete "accessToken" (localStorage (env w)))))
                   (log (env w) ++ [ERemoveItem "accessToken";
                                    ERemoveItem "refreshToken";
                                    ERemoveItem "user"]))).
Proof.
  unfold step, run, Login.handleLogout, authSlice.logout, authService.logout,
    bind, removeItem, ret.
  cbn [localStorage log]. rewrite <- !app_assoc. reflexivity.
Qed.

(** C8. [logout] never fails, a second [logout] changes neither the state
    nor [localStorage], and [logout] on the unauthenticated state with an
    empty [localStorage] leaves both as they are. *)
Theorem logout_idempotent (w : World) :
  exists w1 w2,
    step Logout w = Some w1
    /\ step Logout w1 = Some w2
    /\ auth w2 = auth w1
    /\ localStorage (env w2) = localStorage (env w1)
    /\ exists w0,
         step Logout (mkWorld unauthenticated (mkEnv ∅ (log (env w)))) = Some w0
         /\ auth w0 = unauthenticated
         /\ localStorage (env w0) = ∅.
Proof.
  eexists; eexists. rewrite logout_world.
  split; [reflexivity |]. rewrite logout_world.
  split; [reflexivity |]. split; [reflexivity |]. split.
  - cbn [env localStorage].
    apply map_eq. intros k. rewrite !lookup_delete.
    repeat case_decide; reflexivity.
  - eexists. rewrite logout_world. split; [reflexivity |].
    split; [reflexivity |]. cbn [env localStorage].
    rewrite !delete_empty. reflexivity.
Qed.

(** ** The guard of the submit handler *)

(** C4. When the email or the password is empty after trimming, the submit
    handler returns with the state, [localStorage] and the log of effects
    unchanged: no action is dispatched and no request is sent. *)
Theorem submit_guard (input : LoginRequest.t) (net : fetch_outcome)
  (st : AuthState.t) (e : Env) :
  trim (LoginRequest.email input) = []
  \/ trim (LoginRequest.password input) = [] ->
  Login.loginHandler input net st e = (Ok st, e).
Proof.
  intros [H | H]; unfold Login.loginHandler; rewrite H; cbn [truthy_string negb].
  - reflexivity.
  - rewrite orb_true_r. reflexivity.
Qed.

Lemma submit_guard_witness :
  Login.loginHandler (LoginRequest.mk (lit "") (lit "x")) FetchRejects
    unauthenticated empty_env = (Ok unauthenticated, empty_env).
Proof. apply submit_guard. left. reflexivity. Defined.

(** ** A failed login *)

(** C6. A failed login (a transport error, or a response that is not 2xx
    with the server message [M]) leaves the state
    [{user: null, accessToken: null, refreshToken: null,
      isAuthenticated: false, loading: false, error: M, loginMessage: null}]
    and does not touch [localStorage]; the only effect is the request. *)
Theorem login_failure_state (credentials : LoginRequest.t)
  (net : fetch_outcome) (M : jstring) (st : AuthState.t) (e : Env) :
  login_fails net M ->
  authSlice.loginAsync credentials net st e =
    (Ok (AuthState.mk VNull None None false false (Some M) None,
         authSlice.rejected M),
     mkEnv (localStorage e) (log e ++ [request_sent credentials])).
Proof.
  intros H. unfold authSlice.loginAsync, authSlice.payloadCreator.
  unfold bind at 1. unfold try_catch. unfold bind at 1.
  destruct H as [| status | status data M Hok Hm HM | status data Hok Hm].
  - rewrite login_fetch_rejects. reflexivity.
  - rewrite login_body_not_json. reflexivity.
  - rewrite login_not_ok by assumption. rewrite Hm.
    destruct M as [| c M]; [congruence |]. reflexivity.
  - rewrite login_not_ok by assumption.
    destruct (LoginResponse.message data) as [[| c M] |];
      [reflexivity | discriminate | reflexivity].
Qed.

Lemma login_failure_state_witness :
  let data :=
    LoginResponse.mk false None None 0 (Some (lit "Invalid credentials"))
      (Some [(lit "email", [lit "not found"])]) VUndef in
  let credentials := LoginRequest.mk (lit "a@b.com") (lit "secret") in
  exists e',
    authSlice.loginAsync credentials
      (FetchResolves (mkResponse 401 (Some data))) unauthenticated empty_env =
      (Ok (AuthState.mk VNull None None false false
             (Some (lit "Invalid credentials")) None,
           authSlice.rejected (lit "Invalid credentials")), e')
    /\ localStorage e' = ∅.
Proof.
  intros data credentials. eexists. split.
  - apply login_failure_state. apply api_error.
    + reflexivity.
    + reflexivity.
    + discriminate.
  - reflexivity.
Defined.

(** ** Decoding the token *)

Lemma decodeJWT_returns (token : jstring) (e : Env) :
  authService.decodeJWT token e =
    (Ok (decoded token),
     mkEnv (localStorage e)
       (log e ++ EDecodeJWT token ::
          match authService.decodeJWT_try token with
          | Ok _ => []
          | Throw _ => [EConsoleError]
          end)).
Proof.
  unfold authService.decodeJWT, decoded, bind, try_catch, lift, emit, ret.
  destruct (authService.decodeJWT_try token);
    cbn [localStorage log]; rewrite <- ?app_assoc; reflexivity.
Qed.





(** ** A login whose token cannot be decoded *)

Lemma loginAsync_ok_token (credentials : LoginRequest.t) (status : Z)
  (data : LoginResponse.t) (token : jstring) (st : AuthState.t) (e : Env) :
  ok (mkResponse status (Some data)) = true ->
  LoginResponse.success data = true ->
  LoginResponse.accessToken data = Some token ->
  token <> [] ->
  authSlice.loginAsync credentials
      (FetchResolves (mkResponse status (Some data))) st e =
    let payload :=
      if truthy (decoded token)
      then authService.set_user data (authService.userInfo_of (decoded token))
      else data in
    (Ok (authSlice.loginAsync_fulfilled (authSlice.loginAsync_pending st)
           payload,
         authSlice.fulfilled payload),
     snd (authService.login credentials
            (FetchResolves (mkResponse status (Some data))) e)).
Proof.
  intros Hok Hs Ht Hne.
  unfold authSlice.loginAsync, authSlice.payloadCreator.
  unfold bind at 1. unfold try_catch. unfold bind at 1.
  rewrite (login_ok_token credentials status data token e Hok Hs Ht Hne).
  unfold decoded. cbv zeta.
  destruct (authService.decodeJWT_try token) as [d | x];
    [destruct (truthy d) |]; reflexivity.
Qed.

(** C1, as amended. When the response is 2xx with [success] and a
    non-empty token that cannot be decoded, [decodeJWT] returns [null]
    without throwing and the login is fulfilled: the state has the token,
    [isAuthenticated] is true, [error] is [null], and [user] is what the
    body carried ([null] when it carried none). *)
Theorem login_decode_failure_fulfilled (credentials : LoginRequest.t)
  (status : Z) (data : LoginResponse.t) (token : jstring)
  (st : AuthState.t) (e : Env) :
  ok (mkResponse status (Some data)) = true ->
  LoginResponse.success data = true ->
  LoginResponse.accessToken data = Some token ->
  token <> [] ->
  decoded token = VNull ->
  (forall e0, exists e1, authService.decodeJWT token e0 = (Ok VNull, e1))
  /\ exists e',
      authSlice.loginAsync credentials
          (FetchResolves (mkResponse status (Some data))) st e =
        (Ok (AuthState.mk
               (or_else (LoginResponse.user data) VNull)
               (Some token)
               (or_null (LoginResponse.refreshToken data))
               true false None
               (or_null (LoginResponse.message data)),
             authSlice.fulfilled data), e').
Proof.
  intros Hok Hs Ht Hne Hd. split.
  - intros e0. rewrite decodeJWT_returns, Hd. eexists. reflexivity.
  - eexists. rewrite (loginAsync_ok_token _ _ _ token) by assumption.
    rewrite Hd. cbn [truthy]. cbv zeta.
    unfold authSlice.loginAsync_fulfilled. rewrite Ht.
    destruct token as [| c token]; [congruence |]. reflexivity.
Qed.

Lemma login_decode_failure_fulfilled_witness :
  exists e',
    authSlice.loginAsync credentials_A
        (FetchResolves (mkResponse 200 (Some data_undecodable)))
        unauthenticated empty_env =
      (Ok (AuthState.mk VNull (Some (lit "abc")) (Some (lit "r1"))
             true false None (Some (lit "ok")),
           authSlice.fulfilled data_undecodable), e').
Proof.
  apply (login_decode_failure_fulfilled credentials_A 200 data_undecodable
           (lit "abc") unauthenticated empty_env);
    [reflexivity | reflexivity | reflexivity | discriminate
    | vm_compute; reflexivity].
Defined.

(** C1 as stated fails: HTTP 200, a token without a dot, and the state is
    authenticated with no error, not [loginFailed]. *)
Lemma login_decode_failure_counterexample :
  decoded (lit "abc") = VNull
  /\ exists st' e',
      authSlice.loginAsync credentials_A
          (FetchResolves (mkResponse 200 (Some data_undecodable)))
          unauthenticated empty_env =
        (Ok (st', authSlice.fulfilled data_undecodable), e')
      /\ AuthState.isAuthenticated st' = true
      /\ AuthState.error st' = None
      /\ ~ login_failed st'.
Proof.
  split; [vm_compute; reflexivity |].
  eexists; eexists. split; [vm_compute; reflexivity |].
  split; [reflexivity |]. split; [reflexivity |].
  intros [H _]. discriminate.
Qed.

(** ** The order of the writes *)

(** C10, as amended. On a 2xx response with [success] and a non-empty
    token, the access token and the refresh token are written to
    [localStorage] before [decodeJWT] is entered, and both keys hold them
    when [login] returns.  If the decode then fails ([decodeJWT] returns
    [null]), the [user] key is left as it was before the call: it is absent
    afterwards only if it was absent before. *)
Theorem login_stores_tokens_before_decoding (credentials : LoginRequest.t)
  (status : Z) (data : LoginResponse.t) (token : jstring) (e : Env) :
  ok (mkResponse status (Some data)) = true ->
  LoginResponse.success data = true ->
  LoginResponse.accessToken data = Some token ->
  token <> [] ->
  exists r e' later,
    authService.login credentials
        (FetchResolves (mkResponse status (Some data))) e = (Ok r, e')
    /\ log e' =
         log e ++ [request_sent credentials;
                   ESetItem "accessToken" token;
                   ESetItem "refreshToken"
                     (to_string (LoginResponse.refreshToken data));
                   EDecodeJWT token] ++ later
    /\ localStorage e' !! "accessToken" = Some token
    /\ localStorage e' !! "refreshToken"
       = Some (to_string (LoginResponse.refreshToken data))
    /\ (decoded token = VNull ->
        localStorage e' !! "user" = localStorage e !! "user").
Proof.
  intros Hok Hs Ht Hne.
  rewrite (login_ok_token credentials status data token e Hok Hs Ht Hne).
  unfold decoded. cbv zeta.
  destruct (authService.decodeJWT_try token) as [d | x];
    [destruct (truthy d) eqn:Hd |].
  - eexists; eexists;
      exists [ESetItem "user" (JSON_stringify (authService.userInfo_of d))].
    split; [reflexivity |]. unfold tokens_stored. cbn [localStorage log].
    split; [rewrite <- app_assoc; reflexivity |].
    rewrite !lookup_insert. repeat case_decide; try congruence.
    repeat split. intros ->. discriminate.
  - eexists; eexists; exists [].
    split; [reflexivity |]. unfold tokens_stored. cbn [localStorage log].
    split; [rewrite app_nil_r; reflexivity |].
    rewrite !lookup_insert. repeat case_decide; try congruence.
    repeat split; reflexivity.
  - eexists; eexists; exists [EConsoleError].
    split; [reflexivity |]. unfold tokens_stored. cbn [localStorage log].
    split; [rewrite <- app_assoc; reflexivity |].
    rewrite !lookup_insert. repeat case_decide; try congruence.
    repeat split; reflexivity.
Qed.

Lemma login_stores_tokens_before_decoding_witness :
  exists r e' later,
    authService.login credentials_A
        (FetchResolves (mkResponse 200 (Some data_undecodable))) empty_env
      = (Ok r, e')
    /\ log e' =
         log empty_env ++ [request_sent credentials_A;
                   ESetItem "accessToken" (lit "abc");
                   ESetItem "refreshToken" (lit "r1");
                   EDecodeJWT (lit "abc")] ++ later
    /\ localStorage e' !! "accessToken" = Some (lit "abc")
    /\ localStorage e' !! "refreshToken" = Some (lit "r1")
    /\ localStorage e' !! "user" = None.
Proof.
  destruct (login_stores_tokens_before_decoding credentials_A 200
              data_undecodable (lit "abc") empty_env)
    as (r & e' & later & H1 & H2 & H3 & H4 & H5);
    [reflexivity | reflexivity | reflexivity | discriminate |].
  exists r, e', later.
  split; [exact H1 |]. split; [exact H2 |]. split; [exact H3 |].
  split; [exact H4 |].
  rewrite H5; [reflexivity | vm_compute; reflexivity].
Defined.

(** C10 as stated fails: when [localStorage] holds a [user] key from an
    earlier session, a login whose token cannot be decoded leaves that key
    in place next to the new tokens. *)
Lemma login_keeps_stale_user_counterexample :
  decoded (lit "abc") = VNull
  /\ exists r e',
      authService.login credentials_A
          (FetchResolves (mkResponse 200 (Some data_undecodable)))
          env_stale_user = (Ok r, e')
      /\ localStorage e' !! "accessToken" = Some (lit "abc")
      /\ localStorage e' !! "refreshToken" = Some (lit "r1")
      /\ localStorage e' !! "user" = Some (lit "{}").
Proof.
  split; [vm_compute; reflexivity |].
  eexists; eexists. split; [vm_compute; reflexivity |].
  repeat split; vm_compute; reflexivity.
Qed.

(** ** The user record *)

Lemma second_segment_nonempty (token payload : jstring) :
  nth_error (split 46 token) 1 = Some payload -> token <> [].
Proof. intros H ->. discriminate. Qed.

Lemma decoded_record (token payload binary : jstring)
  (fields : list (jstring * value)) :
  nth_error (split 46 token) 1 = Some payload ->
  atob payload = Ok binary ->
  JSON_parse binary = Ok (VObj fields) ->
  decoded token = VObj fields.
Proof.
  intros Hp Ha Hj. unfold decoded, authService.decodeJWT_try.
  rewrite Hp. cbn [to_string_arg]. rewrite Ha, Hj. reflexivity.
Qed.

(** C3, as amended. When the second segment of the token base64-decodes to
    a record, a successful login produces a user record whose fields are
    named [email], [nameid], [unique_name] and [role] and carry the values
    of the payload's fields of those names. *)
Theorem login_user_record (credentials : LoginRequest.t) (status : Z)
  (data : LoginResponse.t) (token payload binary : jstring)
  (fields : list (jstring * value)) (st : AuthState.t) (e : Env) :
  ok (mkResponse status (Some data)) = true ->
  LoginResponse.success data = true ->
  LoginResponse.accessToken data = Some token ->
  nth_error (split 46 token) 1 = Some payload ->
  atob payload = Ok binary ->
  JSON_parse binary = Ok (VObj fields) ->
  exists st' r e',
    authSlice.loginAsync credentials
        (FetchResolves (mkResponse status (Some data))) st e
      = (Ok (st', authSlice.fulfilled r), e')
    /\ AuthState.isAuthenticated st' = true
    /\ AuthState.error st' = None
    /\ AuthState.user st' =
         VObj [(lit "email", lookup_property (lit "email") fields);
               (lit "nameid", lookup_property (lit "nameid") fields);
               (lit "unique_name", lookup_property (lit "unique_name") fields);
               (lit "role", lookup_property (lit "role") fields)].
Proof.
  intros Hok Hs Ht Hp Ha Hj.
  pose proof (second_segment_nonempty _ _ Hp) as Hne.
  rewrite (loginAsync_ok_token _ _ _ token) by assumption.
  rewrite (decoded_record _ _ _ _ Hp Ha Hj). cbn [truthy]. cbv zeta.
  eexists; eexists; eexists. split; [reflexivity |].
  repeat split; reflexivity.
Qed.

Lemma login_user_record_witness :
  exists st' r e',
    authSlice.loginAsync credentials_A
        (FetchResolves (mkResponse 200 (Some data_A))) unauthenticated
        empty_env
      = (Ok (st', authSlice.fulfilled r), e')
    /\ AuthState.isAuthenticated st' = true
    /\ AuthState.error st' = None
    /\ AuthState.user st' = user_A.
Proof.
  change user_A
    with (VObj [(lit "email", lookup_property (lit "email") fields_A);
                (lit "nameid", lookup_property (lit "nameid") fields_A);
                (lit "unique_name",
                 lookup_property (lit "unique_name") fields_A);
                (lit "role", lookup_property (lit "role") fields_A)]).
  eapply (login_user_record credentials_A 200 data_A token_A);
    [reflexivity | reflexivity | reflexivity
    | vm_compute; reflexivity | vm_compute; reflexivity
    | vm_compute; reflexivity].
Defined.

(** C3 as stated fails on the names: in scenario A the record of the final
    state is not [{email, id, displayName, role}]; it has no field [id] and
    no field [displayName]. *)
Lemma login_user_record_names_counterexample :
  exists st' r e',
    authSlice.loginAsync credentials_A
        (FetchResolves (mkResponse 200 (Some data_A))) unauthenticated
        empty_env
      = (Ok (st', authSlice.fulfilled r), e')
    /\ AuthState.user st' <>
         VObj [(lit "email", VStr (lit "a@b.com"));
               (lit "id", VStr (lit "42"));
               (lit "displayName", VStr (lit "Alice"));
               (lit "role", VStr (lit "Admin"))]
    /\ get (AuthState.user st') "id" = VUndef
    /\ get (AuthState.user st') "displayName" = VUndef
    /\ get (AuthState.user st') "nameid" = VStr (lit "42")
    /\ get (AuthState.user st') "unique_name" = VStr (lit "Alice").
Proof.
  eexists; eexists; eexists. split; [vm_compute; reflexivity |].
  split; [intros H; vm_compute in H; discriminate |].
  repeat split; vm_compute; reflexivity.
Qed.

(** ** Persistence round trip *)

(** Reading one [key: string] member written by [JSON.stringify]. *)
Lemma parse_member_string (f : nat) (k a rest : jstring)
  (acc : list (jstring * value)) :
  parse_members (S (S f)) (quote k ++ 58 :: quote a ++ rest) acc =
    match skip_ws rest with
    | c3 :: r4 =>
        if c3 =? 44
        then parse_members (S f) r4 (define_property k (VStr a) acc)
        else if c3 =? 125
        then POk (VObj (define_property k (VStr a) acc)) r4
        else PErr
    | [] => PErr
    end.
Proof.
  unfold quote.
  cbn [parse_members app skip_ws N.eqb Pos.eqb orb].
  rewrite <- app_assoc. cbn [app]. rewrite parse_chars_quote.
  cbn [skip_ws N.eqb Pos.eqb orb parse_value].
  rewrite <- app_assoc. cbn [app]. rewrite parse_chars_quote.
  reflexivity.
Qed.







(** ** User record and access token *)

Lemma loginAsync_rejects (credentials : LoginRequest.t) (net : fetch_outcome)
  (x : AuthError) (st : AuthState.t) (e e' : Env) :
  authService.login credentials net e = (Throw (AuthErrorE x), e') ->
  authSlice.loginAsync credentials net st e =
    (Ok (authSlice.loginAsync_rejected (authSlice.loginAsync_pending st)
           (message x),
         authSlice.rejected (message x)), e').
Proof.
  intros H. unfold authSlice.loginAsync, authSlice.payloadCreator.
  unfold bind at 1. unfold try_catch. unfold bind at 1.
  rewrite H. reflexivity.
Qed.

Lemma loginAsync_fulfils (credentials : LoginRequest.t) (net : fetch_outcome)
  (r : LoginResponse.t) (st : AuthState.t) (e e' : Env) :
  authService.login credentials net e = (Ok r, e') ->
  authSlice.loginAsync credentials net st e =
    (Ok (authSlice.loginAsync_fulfilled (authSlice.loginAsync_pending st) r,
         authSlice.fulfilled r), e').
Proof.
  intros H. unfold authSlice.loginAsync, authSlice.payloadCreator.
  unfold bind at 1. unfold try_catch. unfold bind at 1.
  rewrite H. reflexivity.
Qed.

(** [login] either throws an [AuthError] and leaves [localStorage] alone, or
    returns a response; a response with a user record has a non-empty token
    and both are then stored. *)
Lemma login_outcome (credentials : LoginRequest.t) (net : fetch_outcome)
  (e : Env) :
  server_sends_no_user (Submit credentials net) ->
  (exists x e',
     authService.login credentials net e = (Throw (AuthErrorE x), e')
     /\ localStorage e' = localStorage e)
  \/ (exists r e',
        authService.login credentials net e = (Ok r, e')
        /\ ((or_else (LoginResponse.user r) VNull = VNull
             /\ (localStorage e' = localStorage e
                 \/ exists v, localStorage e' !! "accessToken" = Some v
                      /\ localStorage e' !! "user" = localStorage e !! "user"))
            \/ (or_null (LoginResponse.accessToken r) <> None
                /\ localStorage e' !! "accessToken" <> None))).
Proof.
  intros Hno. destruct net as [| [status [data |]]].
  - left. rewrite login_fetch_rejects. eauto.
  - cbn in Hno.
    destruct (ok (mkResponse status (Some data))) eqn:Hok.
    + right.
      destruct (LoginResponse.success data) eqn:Hs.
      * destruct (or_null (LoginResponse.accessToken data)) as [t |] eqn:Ht.
        -- assert (LoginResponse.accessToken data = Some t /\ t <> [])
             as [Ht' Hne].
           { unfold or_null, string_or_null in Ht.
             destruct (LoginResponse.accessToken data) as [t' |];
               [| discriminate].
             destruct t'; [discriminate |]. cbn in Ht.
             injection Ht as <-. split; [reflexivity | discriminate]. }
           rewrite (login_ok_token credentials status data t e Hok Hs Ht' Hne).
           cbv zeta.
           destruct (authService.decodeJWT_try t) as [d | x];
             [destruct (truthy d) |].
           ++ eexists; eexists. split; [reflexivity |]. right.
              cbn [authService.set_user LoginResponse.accessToken].
              rewrite Ht. split; [discriminate |].
              unfold tokens_stored. cbn [localStorage].
              rewrite !lookup_insert. repeat case_decide; congruence.
           ++ eexists; eexists. split; [reflexivity |]. left.
              rewrite Hno. split; [reflexivity |]. right.
              unfold tokens_stored. cbn [localStorage].
              rewrite !lookup_insert. repeat case_decide; try congruence.
              eauto.
           ++ eexists; eexists. split; [reflexivity |]. left.
              rewrite Hno. split; [reflexivity |]. right.
              unfold tokens_stored. cbn [localStorage].
              rewrite !lookup_insert. repeat case_decide; try congruence.
              eauto.
        -- rewrite login_ok_no_token by auto.
           eexists; eexists. split; [reflexivity |]. left.
           rewrite Hno. split; [reflexivity |]. left. reflexivity.
      * rewrite login_ok_no_token by auto.
        eexists; eexists. split; [reflexivity |]. left.
        rewrite Hno. split; [reflexivity |]. left. reflexivity.
    + left. rewrite login_not_ok by assumption. eauto.
  - left. rewrite login_body_not_json. eauto.
Qed.

Lemma step_user_has_token (o : op) (w w' : World) :
  server_sends_no_user o ->
  user_has_token w -> step o w = Some w' -> user_has_token w'.
Proof.
  intros Hno [Hst Hls] Hstep. destruct o as [input net | | |].
  - (* Submit *)
    unfold step, Login.loginHandler in Hstep.
    destruct (negb (truthy_string (trim (LoginRequest.email input)))
              || negb (truthy_string (trim (LoginRequest.password input)))).
    { cbn in Hstep. injection Hstep as <-. destruct w. split; assumption. }
    unfold run, bind in Hstep.
    destruct (login_outcome input net (env w) Hno)
      as [(x & e' & Hl & Hs) | (r & e' & Hl & H)].
    + rewrite (loginAsync_rejects _ _ _ _ _ _ Hl) in Hstep.
      cbn in Hstep. injection Hstep as <-. split; cbn.
      * congruence.
      * rewrite Hs. assumption.
    + rewrite (loginAsync_fulfils _ _ _ _ _ _ Hl) in Hstep.
      cbn in Hstep. injection Hstep as <-. split; cbn.
      * destruct H as [[Hu _] | [Ht _]]; congruence.
      * destruct H as [[_ [Hs | (v & Hv & Hu)]] | [_ Ht]].
        -- rewrite Hs. assumption.
        -- rewrite Hv. discriminate.
        -- intros _. assumption.
  - (* Logout *)
    rewrite logout_world in Hstep. injection Hstep as <-. split; cbn.
    + congruence.
    + rewrite lookup_delete_eq. congruence.
  - (* ClearError *)
    cbn in Hstep. injection Hstep as <-. split; cbn; assumption.
  - (* Reload *)
    unfold step, run, authSlice.initialState, authService.getStoredUser,
      authService.isAuthenticated, authService.getToken, getItem, bind, ret,
      lift in Hstep.
    destruct (localStorage (env w) !! "user") as [u |] eqn:Hu.
    + assert (localStorage (env w) !! "accessToken" <> None) as Ha
        by (apply Hls; discriminate).
      destruct (truthy_string u);
        [destruct (JSON_parse u); [| discriminate] |];
        injection Hstep as <-; (split; cbn; [intros _; assumption |]);
        rewrite Hu; intros _; assumption.
    + injection Hstep as <-. split; cbn.
      * intros H. exfalso. apply H. reflexivity.
      * rewrite Hu. congruence.
Qed.

(** C2, as amended. In every world reached from the start by submit, logout,
    clearError and reload, where no response body carries a [user] field of
    its own, a non-null [user] comes with a non-null [accessToken].  The
    converse does not hold. *)
Theorem user_implies_token (w : World) :
  reachable_by server_sends_no_user w ->
  AuthState.user (auth w) <> VNull ->
  AuthState.accessToken (auth w) <> None.
Proof.
  intros Hr. enough (user_has_token w) as [H _] by exact H.
  induction Hr as [w Hw | o w w' Ho Hr IH Hstep].
  - vm_compute in Hw. injection Hw as <-. split; cbn.
    + intros H. exfalso. apply H. reflexivity.
    + intros H. exfalso. apply H. reflexivity.
  - eapply step_user_has_token; eassumption.
Qed.

(** The world after scenario A. *)
Lemma user_implies_token_witness :
  exists w,
    reachable_by server_sends_no_user w
    /\ AuthState.user (auth w) = user_A
    /\ AuthState.accessToken (auth w) <> None.
Proof.
  assert (exists w,
            reachable_by server_sends_no_user w
            /\ AuthState.user (auth w) = user_A) as (w & Hr & Hu).
  { eexists. split.
    - eapply (reachable_step _
                (Submit credentials_A
                   (FetchResolves (mkResponse 200 (Some data_A))))).
      + reflexivity.
      + apply reachable_start. reflexivity.
      + vm_compute. reflexivity.
    - reflexivity. }
  exists w. split; [exact Hr |]. split; [exact Hu |].
  apply (user_implies_token w Hr). rewrite Hu. discriminate.
Defined.

(** C2 as stated fails: after a login whose token cannot be decoded the
    state holds the access token and no user record. *)
Lemma user_iff_token_counterexample :
  ~ (forall w, reachable w ->
       (AuthState.user (auth w) <> VNull <->
        AuthState.accessToken (auth w) <> None)).
Proof.
  intros H.
  assert (exists w,
            reachable w
            /\ AuthState.user (auth w) = VNull
            /\ AuthState.accessToken (auth w) = Some (lit "abc"))
    as (w & Hr & Hu & Ha).
  { eexists. split.
    - eapply (reachable_step _
                (Submit credentials_A
                   (FetchResolves (mkResponse 200 (Some data_undecodable))))).
      + exact I.
      + apply reachable_start. reflexivity.
      + vm_compute. reflexivity.
    - split; reflexivity. }
  apply (H w Hr); [rewrite Ha; discriminate | exact Hu].
Qed.

(** * The to-do list *)

Lemma jstring_eqb_eq (a b : jstring) : jstring_eqb a b = true <-> a = b.
Proof.
  revert b. induction a as [| x a IH]; intros [| y b]; simpl;
    try (split; [discriminate | discriminate]); [tauto |].
  rewrite andb_true_iff, N.eqb_eq, IH.
  split; [intros [-> ->]; reflexivity | intros H; injection H; auto].
Qed.

Lemma jstring_eqb_refl (a : jstring) : jstring_eqb a a = true.
Proof. apply jstring_eqb_eq. reflexivity. Qed.

Lemma jstring_eqb_neq (a b : jstring) : jstring_eqb a b = false <-> a <> b.
Proof.
  rewrite <- jstring_eqb_eq. destruct (jstring_eqb a b); split; congruence.
Qed.

(** X1. [removeTodo] drops every item with the given identifier and keeps every
    other item. *)
Theorem removeTodo_keeps_others (state : todoSlice.TodoState)
  (payload : jstring) (todo : Todo.t) :
  In todo (todoSlice.todos (todoSlice.removeTodo state payload)) <->
  In todo (todoSlice.todos state) /\ Todo.id todo <> payload.
Proof.
  unfold todoSlice.removeTodo. cbn [todoSlice.todos].
  rewrite List.filter_In, negb_true_iff, jstring_eqb_neq. reflexivity.
Qed.

Lemma filter_absent_id (l : list Todo.t) (payload : jstring) :
  ~ In payload (map Todo.id l) ->
  List.filter (fun todo => negb (jstring_eqb (Todo.id todo) payload)) l = l.
Proof.
  intros H. induction l as [| t l IH]; [reflexivity |]. simpl in *.
  destruct (jstring_eqb (Todo.id t) payload) eqn:E.
  - apply jstring_eqb_eq in E. tauto.
  - simpl. f_equal. apply IH. tauto.
Qed.

Lemma filter_removes_id (l : list Todo.t) (payload : jstring) :
  ~ In payload
      (map Todo.id
         (List.filter
            (fun todo => negb (jstring_eqb (Todo.id todo) payload)) l)).
Proof.
  rewrite in_map_iff. intros (t & Hid & Hin).
  apply List.filter_In in Hin. destruct Hin as [_ Hin].
  apply negb_true_iff, jstring_eqb_neq in Hin. congruence.
Qed.

(** X2. Removing an identifier that no item has changes nothing. *)
Theorem removeTodo_absent (state : todoSlice.TodoState) (payload : jstring) :
  ~ In payload (todo_ids state) ->
  todoSlice.removeTodo state payload = state.
Proof.
  destruct state as [l]. unfold todoSlice.removeTodo, todo_ids.
  cbn [todoSlice.todos]. intros H. f_equal.
  apply filter_absent_id. exact H.
Qed.

Lemma removeTodo_absent_witness :
  todoSlice.removeTodo todoSlice.initialState (lit "2")
  = todoSlice.initialState.
Proof.
  apply removeTodo_absent. vm_compute. intros [H | []]. discriminate.
Defined.

(** X3. After [removeTodo] no item has the identifier, so a second [removeTodo]
    of it changes nothing, and two removals can be done in either order. *)
Theorem removeTodo_idempotent_commutes (state : todoSlice.TodoState)
  (p q : jstring) :
  ~ In p (todo_ids (todoSlice.removeTodo state p))
  /\ todoSlice.removeTodo (todoSlice.removeTodo state p) p
     = todoSlice.removeTodo state p
  /\ todoSlice.removeTodo (todoSlice.removeTodo state p) q
     = todoSlice.removeTodo (todoSlice.removeTodo state q) p.
Proof.
  destruct state as [l]. unfold todoSlice.removeTodo, todo_ids.
  cbn [todoSlice.todos].
  split; [apply filter_removes_id |].
  split; [f_equal; apply filter_absent_id, filter_removes_id |].
  f_equal. induction l as [| t l IH]; [reflexivity |]. simpl.
  destruct (jstring_eqb (Todo.id t) p) eqn:Ep;
    destruct (jstring_eqb (Todo.id t) q) eqn:Eq; simpl;
    rewrite ?Ep, ?Eq; simpl; rewrite IH; reflexivity.
Qed.

(** X4. [addTodo] followed by [removeTodo] of the new identifier gives the list
    back, provided the identifier was not in use. *)
Theorem addTodo_removeTodo (state : todoSlice.TodoState)
  (nanoid payload : jstring) :
  ~ In nanoid (todo_ids state) ->
  todoSlice.removeTodo (todoSlice.addTodo state nanoid payload) nanoid
  = state.
Proof.
  destruct state as [l]. unfold todoSlice.removeTodo, todoSlice.addTodo,
    todo_ids. cbn [todoSlice.todos]. intros H. f_equal.
  rewrite List.filter_app. simpl. rewrite jstring_eqb_refl. simpl.
  rewrite app_nil_r. apply filter_absent_id. exact H.
Qed.

Lemma addTodo_removeTodo_witness :
  todoSlice.removeTodo
    (todoSlice.addTodo todoSlice.initialState (lit "n1") (lit "milk"))
    (lit "n1")
  = todoSlice.initialState.
Proof.
  apply addTodo_removeTodo. vm_compute. intros [H | []]. discriminate.
Defined.

(** X5. When the identifier is already in use, removing the new item takes the
    older items of that identifier with it. *)
Theorem addTodo_removeTodo_collision (state : todoSlice.TodoState)
  (nanoid payload : jstring) :
  In nanoid (todo_ids state) ->
  (length (todoSlice.todos
             (todoSlice.removeTodo
                (todoSlice.addTodo state nanoid payload) nanoid))
   < length (todoSlice.todos state))%nat.
Proof.
  destruct state as [l]. unfold todoSlice.removeTodo, todoSlice.addTodo,
    todo_ids. cbn [todoSlice.todos]. intros H.
  rewrite List.filter_app. simpl. rewrite jstring_eqb_refl. simpl.
  rewrite app_nil_r.
  induction l as [| t l IH]; [destruct H |]. simpl in *.
  destruct (jstring_eqb (Todo.id t) nanoid) eqn:E; simpl.
  - pose proof (List.filter_length_le
                  (fun todo => negb (jstring_eqb (Todo.id todo) nanoid)) l).
    lia.
  - destruct H as [H | H]; [apply jstring_eqb_neq in E; congruence |].
    apply IH in H. lia.
Qed.

Lemma addTodo_removeTodo_collision_witness :
  (length (todoSlice.todos
             (todoSlice.removeTodo
                (todoSlice.addTodo todoSlice.initialState (lit "1")
                   (lit "milk")) (lit "1")))
   < length (todoSlice.todos todoSlice.initialState))%nat.
Proof.
  apply addTodo_removeTodo_collision. vm_compute. left. reflexivity.
Defined.

Lemma reducer_NoDup (state : todoSlice.TodoState) (a : todoSlice.action) :
  List.NoDup (todo_ids state) ->
  match a with
  | todoSlice.AddTodo nanoid _ => ~ In nanoid (todo_ids state)
  | todoSlice.RemoveTodo _ => True
  end ->
  List.NoDup (todo_ids (todoSlice.reducer state a)).
Proof.
  destruct state as [l]. unfold todo_ids. cbn [todoSlice.todos].
  intros Hnd Hf. destruct a as [nanoid payload | payload]; simpl.
  - rewrite List.map_app. simpl.
    apply List.NoDup_app.
    + exact Hnd.
    + apply List.NoDup_cons; [intros [] | apply List.NoDup_nil].
    + intros x Hx [<- | []]. simpl in Hf. tauto.
  - clear Hf. induction l as [| t l IH]; simpl; [apply List.NoDup_nil |].
    inversion Hnd as [| ? ? Hn Hnd']; subst.
    destruct (jstring_eqb (Todo.id t) payload); simpl; [auto |].
    apply List.NoDup_cons; [| auto].
    rewrite in_map_iff. intros (t' & Hid & Hin).
    apply List.filter_In in Hin. apply Hn. rewrite in_map_iff. exists t'. tauto.
Qed.

(** X6. Identifiers stay pairwise distinct: from the initial list, along any
    sequence of additions and removals in which every new identifier is not
    in use at the time. *)
Theorem todo_ids_unique (actions : list todoSlice.action) :
  fresh_ids todoSlice.initialState actions ->
  List.NoDup
    (todo_ids (fold_left todoSlice.reducer actions todoSlice.initialState)).
Proof.
  assert (List.NoDup (todo_ids todoSlice.initialState)) as H0.
  { vm_compute. apply List.NoDup_cons; [intros [] | apply List.NoDup_nil]. }
  revert H0. generalize todoSlice.initialState as state.
  induction actions as [| a actions IH]; intros state Hnd Hf; simpl.
  - exact Hnd.
  - destruct Hf as [Ha Hf]. apply IH; [| exact Hf].
    apply reducer_NoDup; assumption.
Qed.

Lemma todo_ids_unique_witness :
  List.NoDup (todo_ids
           (fold_left todoSlice.reducer
              [todoSlice.AddTodo (lit "a") (lit "milk");
               todoSlice.RemoveTodo (lit "1");
               todoSlice.AddTodo (lit "1") (lit "eggs")]
              todoSlice.initialState)).
Proof.
  apply todo_ids_unique. vm_compute.
  split; [intros [H | []]; discriminate |].
  split; [exact I |].
  split; [intros [H | []]; discriminate | exact I].
Defined.

(** X7. With distinct identifiers, removing an identifier that is in use
    removes exactly one item. *)
Theorem removeTodo_removes_one (state : todoSlice.TodoState)
  (payload : jstring) :
  List.NoDup (todo_ids state) ->
  In payload (todo_ids state) ->
  S (length (todoSlice.todos (todoSlice.removeTodo state payload)))
  = length (todoSlice.todos state).
Proof.
  destruct state as [l]. unfold todoSlice.removeTodo, todo_ids.
  cbn [todoSlice.todos]. intros Hnd Hin.
  induction l as [| t l IH]; [destruct Hin |]. simpl in *.
  inversion Hnd as [| ? ? Hn Hnd']; subst.
  destruct (jstring_eqb (Todo.id t) payload) eqn:E; simpl.
  - apply jstring_eqb_eq in E. subst payload. f_equal.
    rewrite (filter_absent_id l (Todo.id t) Hn). reflexivity.
  - destruct Hin as [Hin | Hin]; [apply jstring_eqb_neq in E; congruence |].
    f_equal. apply IH; assumption.
Qed.

Lemma removeTodo_removes_one_witness :
  S (length (todoSlice.todos
               (todoSlice.removeTodo todoSlice.initialState (lit "1"))))
  = length (todoSlice.todos todoSlice.initialState).
Proof.
  apply removeTodo_removes_one.
  - vm_compute. apply List.NoDup_cons; [intros [] | apply List.NoDup_nil].
  - vm_compute. left. reflexivity.
Defined.

(** * More on login *)

(** The three ways [login] ends: it throws an [AuthError] after the request
    alone; it returns the body after the request alone; or it stores the two
    tokens, enters [decodeJWT] and returns, having written the [user] key or
    not. *)
Lemma login_cases (credentials : LoginRequest.t) (net : fetch_outcome)
  (e : Env) :
  (exists a,
     authService.login credentials net e =
       (Throw (AuthErrorE a),
        mkEnv (localStorage e) (log e ++ [request_sent credentials]))
     /\ (status a = 500%Z
         \/ exists r, net = FetchResolves r /\ ok r = false
              /\ status a = http_status r))
  \/ (exists data,
        authService.login credentials net e =
          (Ok data,
           mkEnv (localStorage e) (log e ++ [request_sent credentials])))
  \/ (exists data token r u later,
        token <> []
        /\ let e1 := tokens_stored credentials data token e in
           authService.login credentials net e =
             (Ok r, mkEnv (match u with
                           | Some t => <["user" := t]> (localStorage e1)
                           | None => localStorage e1
                           end) (log e1 ++ later))
           /\ List.filter is_fetch later = []).
Proof.
  destruct net as [| [st [data |]]].
  - left. rewrite login_fetch_rejects. eexists. split; [reflexivity |].
    left. reflexivity.
  - destruct (ok (mkResponse st (Some data))) eqn:Hok.
    + right.
      destruct (LoginResponse.success data) eqn:Hs;
        [| left; rewrite login_ok_no_token by auto; eauto].
      destruct (LoginResponse.accessToken data) as [[| c token] |] eqn:Ht;
        [left; rewrite login_ok_no_token
                 by (try assumption; right; rewrite Ht; reflexivity); eauto
        | | left; rewrite login_ok_no_token
                 by (try assumption; right; rewrite Ht; reflexivity); eauto].
      right.
      rewrite (login_ok_token credentials st data (c :: token) e Hok Hs Ht)
        by discriminate.
      cbv zeta.
      destruct (authService.decodeJWT_try (c :: token)) as [d | x];
        [destruct (truthy d) |].
      * exists data, (c :: token). eexists.
        exists (Some (JSON_stringify (authService.userInfo_of d))).
        eexists. split; [discriminate |]. split; reflexivity.
      * exists data, (c :: token), data, None, [].
        split; [discriminate |]. rewrite app_nil_r.
        split; [destruct (tokens_stored _ _ _ _) |]; reflexivity.
      * exists data, (c :: token), data, None, [EConsoleError].
        split; [discriminate |]. split; reflexivity.
    + left. rewrite login_not_ok by assumption. eexists.
      split; [reflexivity |]. right. eauto.
  - left. rewrite login_body_not_json. eexists. split; [reflexivity |].
    left. reflexivity.
Qed.

(** X8. [login] writes the three session keys only: every other key of
    [localStorage] is as before, however the call ends. *)
Theorem login_other_keys (credentials : LoginRequest.t)
  (net : fetch_outcome) (e : Env) (k : string) :
  other_key k ->
  localStorage (snd (authService.login credentials net e)) !! k
  = localStorage e !! k.
Proof.
  intros (H1 & H2 & H3).
  destruct (login_cases credentials net e)
    as [(a & -> & _) | [(data & ->) | (data & token & r & u & later & _ & H)]];
    [reflexivity | reflexivity |].
  cbv zeta in H. destruct H as [-> _]. cbn [snd localStorage].
  unfold tokens_stored. destruct u; cbn [localStorage];
    rewrite !lookup_insert; repeat case_decide; congruence.
Qed.

Lemma login_other_keys_witness :
  localStorage
    (snd (authService.login credentials_A
            (FetchResolves (mkResponse 200 (Some data_A)))
            (mkEnv (<["todos" := lit "[]"]> ∅) []))) !! "todos"
  = Some (lit "[]").
Proof.
  etransitivity;
    [apply (login_other_keys credentials_A
              (FetchResolves (mkResponse 200 (Some data_A)))
              (mkEnv (<["todos" := lit "[]"]> ∅) []) "todos");
     repeat split; discriminate
    | reflexivity].
Defined.

(** A 2xx response never makes [login] throw. *)
Lemma login_2xx_returns (credentials : LoginRequest.t) (st : Z)
  (data : LoginResponse.t) (e : Env) :
  ok (mkResponse st (Some data)) = true ->
  exists r e',
    authService.login credentials
      (FetchResolves (mkResponse st (Some data))) e = (Ok r, e').
Proof.
  intros Hok.
  destruct (LoginResponse.success data) eqn:Hs;
    [| rewrite login_ok_no_token by auto; eauto].
  destruct (LoginResponse.accessToken data) as [[| c token] |] eqn:Ht;
    [rewrite login_ok_no_token
       by (try assumption; right; rewrite Ht; reflexivity); eauto
    | | rewrite login_ok_no_token
          by (try assumption; right; rewrite Ht; reflexivity); eauto].
  rewrite (login_ok_token credentials st data (c :: token) e Hok Hs Ht)
    by discriminate.
  cbv zeta.
  destruct (authService.decodeJWT_try (c :: token)) as [d | x];
    [destruct (truthy d) |]; eauto.
Qed.

Lemma string_or_nonempty (s : option jstring) (d : jstring) :
  d <> [] -> string_or s d <> [].
Proof.
  intros Hd. destruct s as [[| c t] |]; cbn; [exact Hd | discriminate
                                                | exact Hd].
Qed.

(** The message of what [login] throws is never empty. *)
Lemma login_throws_message (credentials : LoginRequest.t)
  (net : fetch_outcome) (e e' : Env) (a : AuthError) :
  authService.login credentials net e = (Throw (AuthErrorE a), e') ->
  message a <> [].
Proof.
  intros H. destruct net as [| [st [data |]]].
  - rewrite login_fetch_rejects in H. injection H as <- _. discriminate.
  - destruct (ok (mkResponse st (Some data))) eqn:Hok.
    + destruct (login_2xx_returns credentials st data e Hok)
        as (r & e1 & Hr).
      rewrite Hr in H. discriminate.
    + rewrite login_not_ok in H by exact Hok. injection H as <- _.
      cbn [message]. apply string_or_nonempty. discriminate.
  - rewrite login_body_not_json in H. injection H as <- _. discriminate.
Qed.

(** X9. Whatever [login] throws is an [AuthError], and one of two: the
    error of status 500 with the message
    [Network error or server unavailable] and no [errors], or, for a
    response that is not 2xx and whose body is JSON, the error with the
    status of the response, the [errors] of its body and the message of
    its body, or [An error occurred] when the body has no message or an
    empty one. *)
Theorem login_throws_AuthError (credentials : LoginRequest.t)
  (net : fetch_outcome) (e e' : Env) (x : exn) :
  authService.login credentials net e = (Throw x, e') ->
  exists a,
    x = AuthErrorE a
    /\ (a = mkAuthError (lit "Network error or server unavailable") 500 None
        \/ exists st data,
             net = FetchResolves (mkResponse st (Some data))
             /\ ok (mkResponse st (Some data)) = false
             /\ a = mkAuthError
                      (match LoginResponse.message data with
                       | Some (c :: m) => c :: m
                       | _ => lit "An error occurred"
                       end)
                      st (LoginResponse.errors data)).
Proof.
  intros H. destruct net as [| [st [data |]]].
  - rewrite login_fetch_rejects in H. injection H as <- _.
    eexists. split; [reflexivity |]. left. reflexivity.
  - destruct (ok (mkResponse st (Some data))) eqn:Hok.
    + destruct (login_2xx_returns credentials st data e Hok)
        as (r & e1 & Hr).
      rewrite Hr in H. discriminate.
    + rewrite login_not_ok in H by exact Hok. injection H as <- _.
      eexists. split; [reflexivity |]. right. exists st, data.
      split; [reflexivity |]. split; [exact Hok |].
      unfold string_or.
      destruct (LoginResponse.message data) as [[| c m] |]; reflexivity.
  - rewrite login_body_not_json in H. injection H as <- _.
    eexists. split; [reflexivity |]. left. reflexivity.
Qed.

Lemma login_throws_AuthError_witness :
  exists a,
    AuthErrorE network_error = AuthErrorE a
    /\ (a = mkAuthError (lit "Network error or server unavailable") 500 None
        \/ exists st data,
             FetchResolves (mkResponse 200 None)
             = FetchResolves (mkResponse st (Some data))
             /\ ok (mkResponse st (Some data)) = false
             /\ a = mkAuthError
                      (match LoginResponse.message data with
                       | Some (c :: m) => c :: m
                       | _ => lit "An error occurred"
                       end)
                      st (LoginResponse.errors data)).
Proof.
  apply (login_throws_AuthError credentials_A
           (FetchResolves (mkResponse 200 None)) empty_env
           (mkEnv (localStorage empty_env)
              (log empty_env ++ [request_sent credentials_A]))).
  reflexivity.
Defined.

(** X10. Every call of [login] sends exactly one request, to the login URL, with
    the credentials as its JSON body. *)
Theorem login_one_request (credentials : LoginRequest.t)
  (net : fetch_outcome) (e : Env) :
  List.filter is_fetch (log (snd (authService.login credentials net e)))
  = List.filter is_fetch (log e)
      ++ [EFetch (API_BASE_URL +:+ "/auth/login")
            (JSON_stringify (authService.credentials_json credentials))].
Proof.
  destruct (login_cases credentials net e)
    as [(a & -> & _) | [(data & ->) | (data & token & r & u & later & _ & H)]].
  - cbn [snd log]. rewrite List.filter_app. reflexivity.
  - cbn [snd log]. rewrite List.filter_app. reflexivity.
  - cbv zeta in H. destruct H as [-> Hl]. cbn [snd log].
    unfold tokens_stored. cbn [log].
    rewrite !List.filter_app, Hl, app_nil_r. reflexivity.
Qed.

(** * More on the slice *)

(** X11. [loginAsync] always settles and never throws: afterwards [loading] is
    false, and the state is authenticated without an error (fulfilled) or
    is the unauthenticated state with the error message (rejected). *)
Theorem loginAsync_settles (credentials : LoginRequest.t)
  (net : fetch_outcome) (st : AuthState.t) (e : Env) :
  exists st' a e',
    authSlice.loginAsync credentials net st e = (Ok (st', a), e')
    /\ AuthState.loading st' = false
    /\ ((exists r, a = authSlice.fulfilled r
           /\ AuthState.isAuthenticated st' = true
           /\ AuthState.error st' = None)
        \/ (exists m, a = authSlice.rejected m
              /\ st' = AuthState.mk VNull None None false false (Some m)
                         None)).
Proof.
  destruct (login_cases credentials net e)
    as [(a & Ha & _) | [(data & Hd) | (data & token & r & u & later & _ & Hd)]].
  - rewrite (loginAsync_rejects _ _ _ _ _ _ Ha).
    eexists; eexists; eexists. split; [reflexivity |].
    split; [reflexivity |]. right. eauto.
  - rewrite (loginAsync_fulfils _ _ _ _ _ _ Hd).
    eexists; eexists; eexists. split; [reflexivity |].
    split; [reflexivity |]. left. eauto.
  - cbv zeta in Hd. destruct Hd as [Hd _].
    rewrite (loginAsync_fulfils _ _ _ _ _ _ Hd).
    eexists; eexists; eexists. split; [reflexivity |].
    split; [reflexivity |]. left. eauto.
Qed.

(** X12. On a 2xx response whose body has no [success] or no token, nothing is
    stored, and yet the login is fulfilled: the state is authenticated
    while [isAuthenticated()] of the service, which reads the stored token,
    still answers as before. *)
Theorem loginAsync_2xx_without_token (credentials : LoginRequest.t)
  (status : Z) (data : LoginResponse.t) (st : AuthState.t) (e : Env) :
  ok (mkResponse status (Some data)) = true ->
  LoginResponse.success data = false
  \/ or_null (LoginResponse.accessToken data) = None ->
  exists st' e',
    authSlice.loginAsync credentials
        (FetchResolves (mkResponse status (Some data))) st e
      = (Ok (st', authSlice.fulfilled data), e')
    /\ AuthState.isAuthenticated st' = true
    /\ AuthState.accessToken st'
       = or_null (LoginResponse.accessToken data)
    /\ localStorage e' = localStorage e
    /\ fst (authService.isAuthenticated e')
       = fst (authService.isAuthenticated e).
Proof.
  intros Hok H.
  rewrite (loginAsync_fulfils _ _ data _ _ _
             (login_ok_no_token credentials status data e Hok H)).
  eexists; eexists. split; [reflexivity |]. repeat split; reflexivity.
Qed.

Lemma loginAsync_2xx_without_token_witness :
  let data :=
    LoginResponse.mk false None None 0 (Some (lit "Invalid credentials"))
      None VUndef in
  exists st' e',
    authSlice.loginAsync credentials_A
        (FetchResolves (mkResponse 200 (Some data))) unauthenticated
        empty_env
      = (Ok (st', authSlice.fulfilled data), e')
    /\ AuthState.isAuthenticated st' = true
    /\ AuthState.accessToken st' = None
    /\ localStorage e' = ∅
    /\ fst (authService.isAuthenticated e') = Ok false.
Proof.
  intros data.
  apply (loginAsync_2xx_without_token credentials_A 200 data unauthenticated
           empty_env); [reflexivity | left; reflexivity].
Defined.

(** ** Loading the module *)

Lemma initialState_env (e : Env) : snd (authSlice.initialState e) = e.
Proof.
  unfold authSlice.initialState, authService.getStoredUser,
    authService.isAuthenticated, authService.getToken, getItem, bind, ret,
    lift.
  destruct (localStorage e !! "user") as [u |]; [| reflexivity].
  destruct (truthy_string u); [| reflexivity].
  destruct (JSON_parse u); reflexivity.
Qed.

Lemma initialState_storage (e1 e2 : Env) :
  localStorage e1 = localStorage e2 ->
  fst (authSlice.initialState e1) = fst (authSlice.initialState e2).
Proof.
  intros H.
  unfold authSlice.initialState, authService.getStoredUser,
    authService.isAuthenticated, authService.getToken, getItem, bind, ret,
    lift.
  rewrite H.
  destruct (localStorage e2 !! "user") as [u |];
    [destruct (truthy_string u); [destruct (JSON_parse u) |] |];
    cbn [fst]; rewrite ?H; reflexivity.
Qed.

(** X13. Loading the module throws exactly when the stored [user] text is not
    empty and is not JSON; [localStorage] is only read. *)
Theorem initialState_throws_iff (e : Env) :
  snd (authSlice.initialState e) = e
  /\ ((exists x, fst (authSlice.initialState e) = Throw x) <->
      exists u, localStorage e !! "user" = Some u /\ u <> []
        /\ exists x, JSON_parse u = Throw x).
Proof.
  split; [apply initialState_env |].
  unfold authSlice.initialState, authService.getStoredUser,
    authService.isAuthenticated, authService.getToken, getItem, bind, ret,
    lift.
  destruct (localStorage e !! "user") as [[| c u] |]; cbn [truthy_string].
  - split; [intros [x H]; discriminate |].
    intros (u & Hu & Hne & _). congruence.
  - destruct (JSON_parse (c :: u)) as [v | x] eqn:Hj; cbn [fst].
    + split; [intros [x H]; discriminate |].
      intros (u' & Hu & _ & x & Hx). congruence.
    + split; [intros _ | eauto].
      exists (c :: u). split; [reflexivity |]. split; [discriminate | eauto].
  - split; [intros [x H]; discriminate |].
    intros (u & Hu & _). discriminate.
Qed.

Lemma login_fails_throws (credentials : LoginRequest.t)
  (net : fetch_outcome) (M : jstring) (e : Env) :
  login_fails net M ->
  exists a,
    authService.login credentials net e =
      (Throw (AuthErrorE a),
       mkEnv (localStorage e) (log e ++ [request_sent credentials]))
    /\ message a = M.
Proof.
  intros [| st | st data M' Hok Hm HM | st data Hok Hm].
  - rewrite login_fetch_rejects. eauto.
  - rewrite login_body_not_json. eauto.
  - rewrite login_not_ok by assumption. eexists. split; [reflexivity |].
    cbn [message]. rewrite Hm. destruct M'; [congruence | reflexivity].
  - rewrite login_not_ok by assumption. eexists. split; [reflexivity |].
    cbn [message].
    destruct (LoginResponse.message data) as [[| c m] |];
      [reflexivity | discriminate | reflexivity].
Qed.

(** X14. A failed login resets the state in memory and leaves the persisted
    session alone: loading the module afterwards gives exactly the state it
    would have given before the attempt. *)
Theorem failed_login_keeps_stored_session (credentials : LoginRequest.t)
  (net : fetch_outcome) (M : jstring) (st st0 : AuthState.t) (e : Env) :
  login_fails net M ->
  authSlice.initialState e = (Ok st0, e) ->
  exists st1 e1,
    authSlice.loginAsync credentials net st e
      = (Ok (st1, authSlice.rejected M), e1)
    /\ AuthState.isAuthenticated st1 = false
    /\ AuthState.user st1 = VNull
    /\ authSlice.initialState e1 = (Ok st0, e1).
Proof.
  intros Hf H0.
  destruct (login_fails_throws credentials net M e Hf) as (a & Ha & <-).
  rewrite (loginAsync_rejects _ _ _ _ _ _ Ha).
  eexists; eexists. split; [reflexivity |].
  split; [reflexivity |]. split; [reflexivity |].
  set (e1 := mkEnv (localStorage e) (log e ++ [request_sent credentials])).
  pose proof (initialState_env e1) as H1.
  pose proof (initialState_storage e1 e eq_refl) as H2.
  rewrite H0 in H2. cbn [fst] in H2.
  destruct (authSlice.initialState e1) as [r e1']. cbn in H1, H2.
  congruence.
Qed.

(** The environment that scenario A leaves. *)
Lemma failed_login_keeps_stored_session_witness :
  let e := snd (authSlice.loginAsync credentials_A
                  (FetchResolves (mkResponse 200 (Some data_A)))
                  unauthenticated empty_env) in
  exists st0 st1 e1,
    authSlice.loginAsync credentials_A FetchRejects st0 e
      = (Ok (st1, authSlice.rejected
                    (lit "Network error or server unavailable")), e1)
    /\ AuthState.isAuthenticated st1 = false
    /\ AuthState.user st1 = VNull
    /\ authSlice.initialState e1 = (Ok st0, e1)
    /\ AuthState.isAuthenticated st0 = true
    /\ AuthState.user st0 = user_A.
Proof.
  intros e.
  destruct (authSlice.initialState e) as [[st0 | x] e0] eqn:H0;
    [| vm_compute in H0; discriminate].
  assert (e0 = e) as -> by (pose proof (initialState_env e) as H;
                            rewrite H0 in H; exact H).
  destruct (failed_login_keeps_stored_session credentials_A FetchRejects
              (lit "Network error or server unavailable") st0 st0 e
              transport_error H0) as (st1 & e1 & H1 & H2 & H3 & H4).
  exists st0, st1, e1. repeat split; try assumption.
  - vm_compute in H0. injection H0 as <-. reflexivity.
  - vm_compute in H0. injection H0 as <-. reflexivity.
Defined.

(** ** After logout *)

(** X15. After [logout] of the service the three accessors find nothing and
    [isAuthenticated()] is false, whatever [localStorage] held. *)
Theorem logout_clears_session (e : Env) :
  exists e',
    authService.logout e = (Ok tt, e')
    /\ authService.getToken e' = (Ok None, e')
    /\ authService.getRefreshToken e' = (Ok None, e')
    /\ authService.getStoredUser e' = (Ok VNull, e')
    /\ authService.isAuthenticated e' = (Ok false, e').
Proof.
  eexists. split; [reflexivity |].
  unfold authService.getToken, authService.getRefreshToken,
    authService.getStoredUser, authService.isAuthenticated,
    authService.getToken, getItem, bind, ret.
  cbn [localStorage].
  repeat split.
  - rewrite !lookup_delete. repeat case_decide; congruence.
  - rewrite !lookup_delete. repeat case_decide; congruence.
  - rewrite lookup_delete_eq. reflexivity.
  - rewrite !lookup_delete. repeat case_decide; try congruence; reflexivity.
Qed.

(** X16. [logout] removes the three session keys only: every other key of
    [localStorage] keeps its value. *)
Theorem logout_other_keys (e : Env) (k : string) :
  other_key k ->
  localStorage (snd (authService.logout e)) !! k = localStorage e !! k.
Proof.
  intros (H1 & H2 & H3). cbn. rewrite !lookup_delete.
  repeat case_decide; congruence.
Qed.

Lemma logout_other_keys_witness :
  localStorage
    (snd (authService.logout
            (mkEnv (<["todos" := lit "[]"]> (<["user" := lit "{}"]> ∅)) [])))
    !! "todos"
  = Some (lit "[]").
Proof.
  etransitivity;
    [apply (logout_other_keys
              (mkEnv (<["todos" := lit "[]"]> (<["user" := lit "{}"]> ∅)) [])
              "todos");
     repeat split; discriminate
    | reflexivity].
Defined.

Lemma initialState_no_session (e : Env) :
  localStorage e !! "user" = None ->
  localStorage e !! "accessToken" = None ->
  localStorage e !! "refreshToken" = None ->
  authSlice.initialState e = (Ok unauthenticated, e).
Proof.
  intros H1 H2 H3.
  unfold authSlice.initialState, authService.getStoredUser,
    authService.isAuthenticated, authService.getToken, getItem, bind, ret.
  rewrite H1, H2, H3. reflexivity.
Qed.

(** X17. Logging out and loading the module again gives the unauthenticated
    state, whatever the state and [localStorage] were, a stored [user] text
    that is not JSON included. *)
Theorem logout_then_reload (w : World) :
  exists w1 w2,
    step Logout w = Some w1
    /\ step Reload w1 = Some w2
    /\ auth w2 = unauthenticated
    /\ env w2 = env w1.
Proof.
  eexists; eexists. rewrite logout_world. split; [reflexivity |].
  unfold step, run. cbn [env].
  rewrite initialState_no_session;
    [split; [reflexivity |]; split; reflexivity | | |];
    cbn [localStorage]; rewrite !lookup_delete;
    repeat case_decide; congruence.
Qed.

(** ** A session without a user record *)

Lemma initialState_tokens_only (e : Env) (t r : jstring) :
  localStorage e !! "user" = None ->
  localStorage e !! "accessToken" = Some t ->
  t <> [] ->
  localStorage e !! "refreshToken" = Some r ->
  authSlice.initialState e =
    (Ok (AuthState.mk VNull (Some t) (Some r) true false None None), e).
Proof.
  intros H1 H2 Hne H3.
  unfold authSlice.initialState, authService.getStoredUser,
    authService.isAuthenticated, authService.getToken, getItem, bind, ret.
  rewrite H1, H2, H3. destruct t; [congruence | reflexivity].
Qed.

(** X18. After a login whose token decodes to nothing truthy, on a
    [localStorage] without a [user] key, the tokens are persisted without a
    user record: loading the module again gives an authenticated state with
    the stored tokens and a null user. *)
Theorem undecodable_login_then_reload (credentials : LoginRequest.t)
  (status : Z) (data : LoginResponse.t) (token : jstring)
  (st : AuthState.t) (e : Env) :
  ok (mkResponse status (Some data)) = true ->
  LoginResponse.success data = true ->
  LoginResponse.accessToken data = Some token ->
  token <> [] ->
  truthy (decoded token) = false ->
  localStorage e !! "user" = None ->
  exists st' e',
    authSlice.loginAsync credentials
        (FetchResolves (mkResponse status (Some data))) st e
      = (Ok (st', authSlice.fulfilled data), e')
    /\ authSlice.initialState e' =
         (Ok (AuthState.mk VNull (Some token)
                (Some (to_string (LoginResponse.refreshToken data)))
                true false None None), e').
Proof.
  intros Hok Hs Ht Hne Hd Hu.
  rewrite (loginAsync_ok_token _ _ _ token) by assumption.
  rewrite Hd. cbv zeta.
  rewrite (login_ok_token credentials status data token e Hok Hs Ht Hne).
  cbv zeta. unfold decoded in Hd.
  eexists; eexists. split; [reflexivity |].
  destruct (authService.decodeJWT_try token) as [d | x];
    [rewrite Hd |]; cbn [snd]; apply initialState_tokens_only;
    try assumption; unfold tokens_stored; cbn [localStorage];
    rewrite !lookup_insert; repeat case_decide; congruence.
Qed.

Lemma undecodable_login_then_reload_witness :
  exists st' e',
    authSlice.loginAsync credentials_A
        (FetchResolves (mkResponse 200 (Some data_undecodable)))
        unauthenticated empty_env
      = (Ok (st', authSlice.fulfilled data_undecodable), e')
    /\ authSlice.initialState e' =
         (Ok (AuthState.mk VNull (Some (lit "abc")) (Some (lit "r1"))
                true false None None), e').
Proof.
  apply (undecodable_login_then_reload credentials_A 200 data_undecodable
           (lit "abc") unauthenticated empty_env);
    [reflexivity | reflexivity | reflexivity | discriminate
    | vm_compute; reflexivity | reflexivity].
Defined.

(** * More on the submit handler *)

(** X19. A submit that passes the guard never throws to the caller and
    sends exactly one request, whose body is the input as it was typed
    (not trimmed).  Once the effect that watches [error] has run, the
    state is the one that [loginAsync] ends in with [error] set to null:
    the state of a fulfilled login as it is, and that of a rejected login
    without its message, which the effect clears.  [localStorage] is as
    [loginAsync] leaves it. *)
Theorem loginHandler_accepted (input : LoginRequest.t) (net : fetch_outcome)
  (st : AuthState.t) (e : Env) :
  trim (LoginRequest.email input) <> [] ->
  trim (LoginRequest.password input) <> [] ->
  exists st' a e',
    authSlice.loginAsync input net st e = (Ok (st', a), e')
    /\ fst (LoginComponent.submit input net st e)
       = Ok (authSlice.clearError st')
    /\ localStorage (snd (LoginComponent.submit input net st e))
       = localStorage e'
    /\ List.filter is_fetch (log (snd (LoginComponent.submit input net st e)))
       = List.filter is_fetch (log e)
           ++ [EFetch (API_BASE_URL +:+ "/auth/login")
                 (JSON_stringify (authService.credentials_json input))].
Proof.
  intros H1 H2. unfold LoginComponent.submit, Login.loginHandler.
  destruct (trim (LoginRequest.email input)); [congruence |].
  destruct (trim (LoginRequest.password input)); [congruence |].
  cbn [truthy_string negb orb].
  destruct (login_cases input net e)
    as [(a & Ha & _) | [(data & Hd) | (data & token & r & u & later & _ & H)]].
  - pose proof (login_throws_message _ _ _ _ _ Ha) as Hm.
    unfold bind. rewrite (loginAsync_rejects _ _ _ st _ _ Ha).
    eexists; eexists; eexists. split; [reflexivity |].
    unfold bind, emit, ret, LoginComponent.clearErrorEffect,
      authSlice.loginAsync_rejected.
    cbn [fst snd localStorage log AuthState.error].
    destruct (message a) as [| c m]; [congruence |].
    cbn [truthy_string]. repeat split.
    rewrite !List.filter_app. cbn. rewrite app_nil_r. reflexivity.
  - unfold bind. rewrite (loginAsync_fulfils _ _ _ st _ _ Hd).
    eexists; eexists; eexists. split; [reflexivity |].
    unfold bind, ret. cbn [fst snd localStorage log].
    repeat split.
    rewrite !List.filter_app. reflexivity.
  - cbv zeta in H. destruct H as [Hd Hl].
    unfold bind. rewrite (loginAsync_fulfils _ _ _ st _ _ Hd).
    eexists; eexists; eexists. split; [reflexivity |].
    unfold bind, ret. cbn [fst snd localStorage log].
    repeat split.
    unfold tokens_stored. cbn [log].
    rewrite !List.filter_app, Hl, app_nil_r. reflexivity.
Qed.

Lemma loginHandler_accepted_witness :
  let input := LoginRequest.mk (lit " a@b.com ") (lit "secret") in
  exists st' a e',
    authSlice.loginAsync input FetchRejects unauthenticated empty_env
      = (Ok (st', a), e')
    /\ fst (LoginComponent.submit input FetchRejects unauthenticated
              empty_env)
       = Ok (authSlice.clearError st')
    /\ localStorage
         (snd (LoginComponent.submit input FetchRejects unauthenticated
                 empty_env))
       = localStorage e'
    /\ List.filter is_fetch
         (log (snd (LoginComponent.submit input FetchRejects unauthenticated
                      empty_env)))
       = List.filter is_fetch (log empty_env)
           ++ [EFetch (API_BASE_URL +:+ "/auth/login")
                 (JSON_stringify (authService.credentials_json input))].
Proof.
  intros input.
  apply (loginHandler_accepted input FetchRejects unauthenticated empty_env);
    vm_compute; discriminate.
Defined.

(** * More on decoding *)

Lemma split_app_sep (sep : N) (h r : jstring) :
  ~ In sep h -> split sep (h ++ sep :: r) = h :: split sep r.
Proof.
  induction h as [| c h IH]; intros Hn; simpl.
  - rewrite N.eqb_refl. reflexivity.
  - destruct (N.eqb_spec c sep) as [-> | Hc];
      [exfalso; apply Hn; left; reflexivity |].
    rewrite IH by (intros H; apply Hn; right; exact H). reflexivity.
Qed.

Lemma second_segment (h p s : jstring) :
  ~ In 46 h -> ~ In 46 p ->
  nth_error (split 46 (h ++ 46 :: p ++ 46 :: s)) 1 = Some p.
Proof.
  intros Hh Hp. rewrite split_app_sep by exact Hh.
  rewrite split_app_sep by exact Hp. reflexivity.
Qed.

(** X20. [decodeJWT] looks at the payload only: the header and the signature of
    a token are never read, so two tokens with the same payload decode to
    the same value whatever their headers and signatures are. *)
Theorem decodeJWT_ignores_header_and_signature (h h' p s s' : jstring)
  (e : Env) :
  ~ In 46 h -> ~ In 46 h' -> ~ In 46 p ->
  fst (authService.decodeJWT (h ++ 46 :: p ++ 46 :: s) e)
  = fst (authService.decodeJWT (h' ++ 46 :: p ++ 46 :: s') e).
Proof.
  intros Hh Hh' Hp. rewrite !decodeJWT_returns. cbn [fst].
  unfold decoded, authService.decodeJWT_try.
  rewrite !second_segment by assumption. reflexivity.
Qed.

Lemma decodeJWT_ignores_header_and_signature_witness :
  fst (authService.decodeJWT (lit "h" ++ 46 :: lit "e30" ++ 46 :: lit "sig")
         empty_env)
  = fst (authService.decodeJWT (lit "" ++ 46 :: lit "e30" ++ 46 :: lit "x.y")
           empty_env).
Proof.
  apply decodeJWT_ignores_header_and_signature;
    vm_compute; intuition discriminate.
Defined.

Lemma strip_padding_keeps (c : N) (s : jstring) :
  c <> 61 -> In c s -> In c (strip_padding s).
Proof.
  intros Hc Hin. unfold strip_padding.
  assert (In c (rev s)) as Hr by (apply in_rev in Hin; exact Hin).
  destruct (rev s) as [| x [| y r]] eqn:E; [exact Hin | |].
  - destruct (N.eqb_spec x 61) as [-> | Hx].
    + destruct Hr as [Hr | []]. congruence.
    + replace (match x with 61 => rev [] | _ => s end) with s; [exact Hin |].
      destruct x as [| p]; [reflexivity |].
      repeat (destruct p as [p | p |]; try reflexivity); congruence.
  - assert (forall t, In c t -> In c (rev t)) as Hrev
      by (intros t Ht; apply in_rev; rewrite rev_involutive; exact Ht).
    destruct (N.eqb_spec x 61) as [-> | Hx].
    + destruct Hr as [Hr | Hr]; [congruence |].
      destruct (N.eqb_spec y 61) as [-> | Hy].
      * destruct Hr as [Hr | Hr]; [congruence |]. apply Hrev. exact Hr.
      * replace (match y with 61 => rev r | _ => rev (y :: r) end)
          with (rev (y :: r)); [apply Hrev; exact Hr |].
        destruct y as [| p]; [reflexivity |].
        repeat (destruct p as [p | p |]; try reflexivity); congruence.
    + replace (match x with
               | 61 => match y with 61 => rev r | _ => rev (y :: r) end
               | _ => s
               end) with s; [exact Hin |].
      destruct x as [| p]; [reflexivity |].
      repeat (destruct p as [p | p |]; try reflexivity); congruence.
Qed.

Lemma base64_indices_invalid (c : N) (s : jstring) :
  In c s -> base64_index c = None -> base64_indices s = None.
Proof.
  intros Hin Hc. induction s as [| x s IH]; [destruct Hin |]. simpl.
  destruct Hin as [-> | Hin].
  - rewrite Hc. reflexivity.
  - rewrite (IH Hin). destruct (base64_index x); reflexivity.
Qed.

Lemma atob_invalid_character (c : N) (data : jstring) :
  In c data ->
  base64_index c = None -> is_ascii_whitespace c = false -> c <> 61 ->
  atob data = Throw (JsError "InvalidCharacterError").
Proof.
  intros Hin Hc Hw H61. unfold atob.
  set (d := filter (fun c => negb (is_ascii_whitespace c)) data).
  assert (In c d) as Hd.
  { subst d. apply list_elem_of_In. apply list_elem_of_filter.
    split; [rewrite Hw; exact I | apply list_elem_of_In; exact Hin]. }
  set (d' := if N.of_nat (length d) mod 4 =? 0 then strip_padding d else d).
  assert (In c d') as Hd'.
  { subst d'. destruct (N.of_nat (length d) mod 4 =? 0);
      [apply strip_padding_keeps; assumption | exact Hd]. }
  destruct (N.of_nat (length d') mod 4 =? 1); [reflexivity |].
  rewrite (base64_indices_invalid c d' Hd' Hc). reflexivity.
Qed.

(** X21. A payload written in the URL-safe alphabet of JWTs is not decoded:
    whenever the second segment contains [-] or [_], [decodeJWT] returns
    [null]. *)
Theorem decodeJWT_rejects_base64url (token payload : jstring) (c : N)
  (e : Env) :
  nth_error (split 46 token) 1 = Some payload ->
  In c payload ->
  c = 45 \/ c = 95 ->
  fst (authService.decodeJWT token e) = Ok VNull.
Proof.
  intros Hp Hin Hc. rewrite decodeJWT_returns. cbn [fst].
  unfold decoded, authService.decodeJWT_try. rewrite Hp.
  cbn [to_string_arg].
  rewrite (atob_invalid_character c payload Hin);
    [reflexivity | destruct Hc as [-> | ->]; reflexivity
    | destruct Hc as [-> | ->]; reflexivity
    | destruct Hc as [-> | ->]; discriminate].
Qed.

Lemma decodeJWT_rejects_base64url_witness :
  fst (authService.decodeJWT (lit "h.eyJh-_.s") empty_env) = Ok VNull.
Proof.
  apply (decodeJWT_rejects_base64url (lit "h.eyJh-_.s") (lit "eyJh-_") 45);
    [reflexivity | vm_compute; tauto | left; reflexivity].
Defined.

(** * The body of the login request *)

(** X22. The body that [login] sends reads back, as JSON, to the record of the
    email and the password, whatever characters they contain. *)
Theorem credentials_body_roundtrip (credentials : LoginRequest.t) :
  JSON_parse (JSON_stringify (authService.credentials_json credentials))
  = Ok (VObj [(lit "email", VStr (LoginRequest.email credentials));
              (lit "password", VStr (LoginRequest.password credentials))]).
Proof.
  destruct credentials as [a b].
  unfold authService.credentials_json. cbn [LoginRequest.email
    LoginRequest.password].
  unfold JSON_parse.
  set (text := JSON_stringify (VObj [(lit "email", VStr a);
                                     (lit "password", VStr b)])).
  assert (exists f, parse_fuel text = (4 + f)%nat) as [f ->].
  { unfold parse_fuel.
    assert (1 <= length text)%nat as Hlen
      by (subst text; unfold JSON_stringify; cbn [stringify length]; lia).
    exists (2 * length text - 2)%nat. lia. }
  subst text. unfold JSON_stringify.
  cbn [stringify join app plus].
  cbn [parse_value skip_ws N.eqb Pos.eqb orb].
  unfold quote at 1.
  cbn [app skip_ws N.eqb Pos.eqb orb].
  change (34 :: quote_chars (lit "email") ++ [34]) with (quote (lit "email")).
  repeat (first [rewrite <- app_assoc | progress cbn [app]]).
  do 2 (rewrite parse_member_string; cbn [skip_ws N.eqb Pos.eqb orb]).
  reflexivity.
Qed.

(** * authenticatedApiCall *)

(** What [authenticatedApiCall] does, given the stored token. *)
Lemma authenticatedApiCall_eq (endpoint : string) (options : RequestInit.t)
  (server : string -> FetchInit.t -> fetch_outcome) (e : Env) :
  authenticatedApiCall endpoint options server e =
    let url := String.append API_BASE_URL endpoint in
    let init :=
      FetchInit.mk (RequestInit.method options)
        (api_headers (localStorage e !! "accessToken") options)
        (RequestInit.body options) in
    let e1 :=
      mkEnv (localStorage e)
        (log e ++ [EFetch url (match RequestInit.body options with
                               | Some b => b
                               | None => []
                               end)]) in
    match server url init with
    | FetchRejects => (Throw (JsError "TypeError"), e1)
    | FetchResolves r => authService.handleApiResponse r e1
    end.
Proof.
  unfold authenticatedApiCall, authService.getToken, getItem, fetch, bind,
    emit, ret, throw.
  cbn [FetchInit.body]. cbv zeta.
  destruct (server _ _); reflexivity.
Qed.

Lemma api_headers_lookup (token : option jstring) (options : RequestInit.t)
  (k : string) :
  api_headers token options !! k =
    match spread_headers (RequestInit.headers options) !! k with
    | Some v => Some v
    | None =>
        if decide (k = "Authorization") then
          match token with
          | Some t =>
              if truthy_string t then Some (lit "Bearer " ++ t) else None
          | None => None
          end
        else if decide (k = "Content-Type")
             then Some (lit "application/json")
             else None
    end.
Proof.
  unfold api_headers, bearer. rewrite !lookup_union.
  destruct (spread_headers (RequestInit.headers options) !! k) as [v |];
    [destruct (_ !! k), (_ !! k); reflexivity |].
  destruct token as [[| c t] |]; cbn [truthy_string];
    rewrite ?lookup_empty, ?lookup_singleton;
    repeat case_decide; subst; try congruence; reflexivity.
Qed.

(** X23. [authenticatedApiCall] sends one request and only reads
    [localStorage].  The request keeps the method and the body of
    [options].  The [headers] object given to [fetch] holds the properties
    that the object spread copies from [options.headers] (those of a plain
    object; none of a [Headers] instance; one per index of an array of
    pairs), each with the value it has there, [Content-Type] and
    [Authorization] included; a name that the spread does not supply is
    absent, apart from [Content-Type], which is then [application/json],
    and [Authorization], which is then [Bearer] and the stored token when
    that token is not empty, and absent otherwise.  A rejected [fetch] is
    rethrown as it is, not as an [AuthError]; a response goes through
    [handleApiResponse]. *)
Theorem authenticatedApiCall_request (endpoint : string)
  (options : RequestInit.t) (e : Env) :
  exists init e1,
    (forall server,
       authenticatedApiCall endpoint options server e =
         match server (String.append API_BASE_URL endpoint) init with
         | FetchRejects => (Throw (JsError "TypeError"), e1)
         | FetchResolves r => authService.handleApiResponse r e1
         end)
    /\ localStorage e1 = localStorage e
    /\ List.filter is_fetch (log e1)
       = List.filter is_fetch (log e)
           ++ [EFetch (String.append API_BASE_URL endpoint)
                 (match RequestInit.body options with
                  | Some b => b
                  | None => []
                  end)]
    /\ FetchInit.method init = RequestInit.method options
    /\ FetchInit.body init = RequestInit.body options
    /\ forall k,
         FetchInit.headers init !! k =
           match
             match RequestInit.headers options with
             | None => None
             | Some (HeadersRecord properties) => properties !! k
             | Some (HeadersObject _) => None
             | Some (HeadersArray pairs) =>
                 (list_to_map
                    (imap (fun i pair => (pretty i, join [44] pair)) pairs)
                  : gmap string jstring) !! k
             end
           with
           | Some v => Some v
           | None =>
               if decide (k = "Authorization") then
                 match localStorage e !! "accessToken" with
                 | Some t =>
                     if truthy_string t then Some (lit "Bearer " ++ t)
                     else None
                 | None => None
                 end
               else if decide (k = "Content-Type")
                    then Some (lit "application/json")
                    else None
           end.
Proof.
  exists (FetchInit.mk (RequestInit.method options)
            (api_headers (localStorage e !! "accessToken") options)
            (RequestInit.body options)).
  eexists.
  split; [intros server; rewrite authenticatedApiCall_eq; reflexivity |].
  split; [reflexivity |].
  split; [cbn [log]; rewrite List.filter_app; reflexivity |].
  split; [reflexivity |]. split; [reflexivity |].
  intros k. cbn [FetchInit.headers]. rewrite api_headers_lookup.
  destruct (RequestInit.headers options) as [[m | h | pairs] |];
    cbn [spread_headers]; rewrite ?lookup_empty; reflexivity.
Qed.

(** X24. After a login that stored a token, a call that does not set
    [Authorization] itself sends [Bearer] followed by that token, whether
    the token could be decoded or not.  The same holds of every call whose
    headers, as the object spread copies them, hold no [Authorization]: a
    call without headers, with a plain object that lacks the property, or
    with a [Headers] instance, whatever it holds. *)
Theorem api_call_after_login (credentials : LoginRequest.t) (status : Z)
  (data : LoginResponse.t) (token : jstring) (e : Env)
  (endpoint : string) (options : RequestInit.t) :
  ok (mkResponse status (Some data)) = true ->
  LoginResponse.success data = true ->
  LoginResponse.accessToken data = Some token ->
  token <> [] ->
  spread_headers (RequestInit.headers options) !! "Authorization" = None ->
  let e' := snd (authService.login credentials
                   (FetchResolves (mkResponse status (Some data))) e) in
  exists init e1,
    (forall server,
       authenticatedApiCall endpoint options server e' =
         match server (String.append API_BASE_URL endpoint) init with
         | FetchRejects => (Throw (JsError "TypeError"), e1)
         | FetchResolves r => authService.handleApiResponse r e1
         end)
    /\ FetchInit.headers init !! "Authorization"
       = Some (lit "Bearer " ++ token).
Proof.
  intros Hok Hs Ht Hne Ha e'.
  assert (localStorage e' !! "accessToken" = Some token) as Hk.
  { subst e'.
    rewrite (login_ok_token credentials status data token e Hok Hs Ht Hne).
    cbv zeta. unfold tokens_stored.
    destruct (authService.decodeJWT_try token) as [d | x];
      [destruct (truthy d) |]; cbn [snd localStorage];
      rewrite !lookup_insert; repeat case_decide; congruence. }
  eexists; eexists.
  split; [intros server; rewrite authenticatedApiCall_eq; reflexivity |].
  cbn [FetchInit.headers].
  rewrite api_headers_lookup, Ha, Hk.
  destruct token; [congruence | reflexivity].
Qed.

Lemma api_call_after_login_witness :
  let e' := snd (authService.login credentials_A
                   (FetchResolves (mkResponse 200 (Some data_undecodable)))
                   empty_env) in
  exists init e1,
    (forall server,
       authenticatedApiCall "/todos" (RequestInit.mk None None None) server e'
       = match server (String.append API_BASE_URL "/todos") init with
         | FetchRejects => (Throw (JsError "TypeError"), e1)
         | FetchResolves r => authService.handleApiResponse r e1
         end)
    /\ FetchInit.headers init !! "Authorization"
       = Some (lit "Bearer abc").
Proof.
  apply (api_call_after_login credentials_A 200 data_undecodable (lit "abc")
           empty_env "/todos" (RequestInit.mk None None None));
    [reflexivity | reflexivity | reflexivity | discriminate | reflexivity].
Defined.

(** The name of an array index is made of digits, so it is never
    [Authorization]. *)
Lemma pretty_N_go_not_A (x : N) (s s' : string) :
  s <> String "A" s' -> pretty_N_go x s <> String "A" s'.
Proof.
  revert s. induction (N.lt_wf_0 x) as [x _ IH]; intros s Hs.
  assert (x = 0 \/ 0 < x)%N as [-> | Hx] by lia.
  - rewrite pretty_N_go_0. exact Hs.
  - rewrite pretty_N_go_step by exact Hx. apply IH.
    + apply N.div_lt; [exact Hx | reflexivity].
    + unfold pretty_N_char. repeat case_match; discriminate.
Qed.

Lemma index_name_not_Authorization (i : nat) :
  pretty i <> "Authorization"%string.
Proof.
  unfold pretty, pretty_nat, pretty, pretty_N.
  case_decide; [discriminate |].
  apply pretty_N_go_not_A. discriminate.
Qed.

(** X25. After [logout] a call adds no [Authorization] header of its own:
    in the [headers] object given to [fetch], [Authorization] is the
    property of that name of the caller's headers when these are a plain
    object, and is absent otherwise: when the plain object lacks it, when
    the caller gives no headers, and when the caller gives a [Headers]
    instance or an array of pairs, which the spread does not copy by
    name. *)
Theorem api_call_after_logout (e : Env) (endpoint : string)
  (options : RequestInit.t) :
  let e' := snd (authService.logout e) in
  exists init e1,
    (forall server,
       authenticatedApiCall endpoint options server e' =
         match server (String.append API_BASE_URL endpoint) init with
         | FetchRejects => (Throw (JsError "TypeError"), e1)
         | FetchResolves r => authService.handleApiResponse r e1
         end)
    /\ FetchInit.headers init !! "Authorization"
       = match RequestInit.headers options with
         | Some (HeadersRecord properties) => properties !! "Authorization"
         | _ => None
         end.
Proof.
  intros e'.
  assert (localStorage e' !! "accessToken" = None) as Hk.
  { subst e'. cbn. rewrite !lookup_delete.
    repeat case_decide; congruence. }
  eexists; eexists.
  split; [intros server; rewrite authenticatedApiCall_eq; reflexivity |].
  cbn [FetchInit.headers]. rewrite api_headers_lookup, Hk.
  destruct (RequestInit.headers options) as [[m | h | pairs] |];
    cbn [spread_headers].
  - destruct (m !! "Authorization"); reflexivity.
  - rewrite lookup_empty. reflexivity.
  - destruct (list_to_map _ !! "Authorization") as [v |] eqn:Hv;
      [| reflexivity].
    exfalso. revert Hv. apply eq_None_ne_Some_1.
    apply not_elem_of_list_to_map_1.
    rewrite list_elem_of_fmap. intros ([k w] & Hk' & Hin).
    apply list_elem_of_lookup in Hin as [i Hi].
    rewrite list_lookup_imap in Hi.
    destruct (pairs !! i); [| discriminate].
    cbn in Hi. injection Hi as <- _. cbn in Hk'.
    exact (index_name_not_Authorization i (eq_sym Hk')).
  - rewrite lookup_empty. reflexivity.
Qed.

(** X26. Headers that the caller gives as a [Headers] instance are all
    dropped: the [headers] object given to [fetch] has [Content-Type] with
    the value [application/json], [Authorization] made from the stored
    token when that token is not empty, and nothing else, whatever the
    instance holds. *)
Theorem api_call_drops_Headers_instance (endpoint : string)
  (method body : option jstring) (entries : list (string * jstring))
  (e : Env) :
  exists init e1,
    (forall server,
       authenticatedApiCall endpoint
           (RequestInit.mk method (Some (HeadersObject entries)) body)
           server e =
         match server (String.append API_BASE_URL endpoint) init with
         | FetchRejects => (Throw (JsError "TypeError"), e1)
         | FetchResolves r => authService.handleApiResponse r e1
         end)
    /\ FetchInit.headers init =
         match localStorage e !! "accessToken" with
         | Some (c :: t) =>
             <["Authorization" := lit "Bearer " ++ c :: t]>
               {["Content-Type" := lit "application/json"]}
         | _ => {["Content-Type" := lit "application/json"]}
         end.
Proof.
  eexists; eexists.
  split; [intros server; rewrite authenticatedApiCall_eq; reflexivity |].
  cbn [FetchInit.headers RequestInit.headers]. unfold api_headers, bearer.
  cbn [RequestInit.headers spread_headers].
  rewrite (left_id ∅ (∪)).
  destruct (localStorage e !! "accessToken") as [[| c t] |];
    cbn [truthy_string]; rewrite ?(left_id ∅ (∪));
    [reflexivity | | reflexivity].
  symmetry. apply insert_union_singleton_l.
Qed.
